(** * react-hotkeys: key-map merging, focus gate and upward delegation

    A shallow embedding of the [HotKeys] component (hot-keys) and of its
    two helpers (utils/sequences-from-key-map, utils/has-changed),
    followed by the properties of the scope tree that the specification
    states about them.

    Conventions of the embedding.
    - A JavaScript value that may be [null] or [undefined] is an [option];
      where the source distinguishes a missing property from a property
      holding [null], the two layers are kept apart ([option (option _)]).
    - A key map (a plain object used as a dictionary, read by property
      lookup and compared with lodash [isEqual], both blind to key order)
      is a [gmap string _] holding its own properties; reading a property
      that is not its own falls through to [Object.prototype].
    - The [handlers] object is traversed with [Object.keys], so it is an
      association list in that order.
    - Component instances live in a heap indexed by references; methods are
      computations in a state-and-exception monad over the heap and a trace
      of the calls that leave the component. *)

From stdpp Require Import base option list strings gmap fin_maps.

Set Default Proof Using "Type".

(** ** types.ts *)

(** [type HotKey = string | { sequence: string; action: string }] *)
Inductive HotKey : Type :=
| HKString (s : string)
| HKObject (sequence action : string).

(** A value of a [HotKeyMap]: [HotKey | HotKey[]]. *)
Inductive KeyMapValue : Type :=
| One (k : HotKey)
| Many (ks : list HotKey).

#[global] Instance HotKey_eq_dec : EqDecision HotKey.
Proof. solve_decision. Defined.

#[global] Instance KeyMapValue_eq_dec : EqDecision KeyMapValue.
Proof. solve_decision. Defined.

(** [type HotKeyMap = Record<string, HotKey | HotKey[]>] *)
Abbreviation HotKeyMap := (gmap string KeyMapValue).

(** ** JavaScript primitives used by the source *)

(** Truthiness of a key-map value: the empty string is the only falsy one
    (objects and arrays, the empty array included, are truthy). *)
Definition truthy (v : KeyMapValue) : bool :=
  match v with
  | One (HKString s) => negb (bool_decide (s = EmptyString))
  | One (HKObject _ _) => true
  | Many _ => true
  end.

(** lodash [isEqual] is one function for every kind of value; the two kinds
    it is applied to here each get an instance below, once their types are
    declared. *)
Class DeepEq (A : Type) : Type := isEqual : A → A → bool.

(** On a nullable key map: plain objects, arrays and strings are compared
    by structure, and [null] equals only [null]. *)
#[global] Instance isEqual_keyMap : DeepEq (option HotKeyMap) :=
  λ a b, bool_decide (a = b).

(** ** utils/has-changed *)

Definition hasChanged `{DeepEq A} (newValue previousValue : A) : bool :=
  negb (isEqual newValue previousValue).

(** The names every plain object inherits from [Object.prototype]: its
    methods, and the accessor [__proto__], which yields the prototype
    itself. A key map is a plain object, and so is every merged map, built
    by an object literal. *)
Definition objectPrototypeMembers : list string :=
  ["constructor"; "hasOwnProperty"; "isPrototypeOf"; "propertyIsEnumerable";
   "toLocaleString"; "toString"; "valueOf"; "__proto__";
   "__defineGetter__"; "__defineSetter__"; "__lookupGetter__";
   "__lookupSetter__"]%string.

Definition inherited (name : string) : bool :=
  bool_decide (name ∈ objectPrototypeMembers).

(** What [hotKeyMap[hotKeyName]] evaluates to: the own property of that
    name, else the inherited member of that name, else [undefined]. *)
Inductive PropertyValue : Type :=
| OwnProperty (v : KeyMapValue)
| PrototypeProperty (name : string)
| UndefinedProperty.

Definition getProperty (hotKeyMap : HotKeyMap) (hotKeyName : string)
  : PropertyValue :=
  match hotKeyMap !! hotKeyName with
  | Some v => OwnProperty v
  | None => if inherited hotKeyName then PrototypeProperty hotKeyName
            else UndefinedProperty
  end.

(** An element of the array the resolver returns. The declared type is
    [HotKey]; at run time it can also be a member of [Object.prototype],
    a function or the prototype object, which is truthy, is no array, and
    has neither a [sequence] nor an [action] property. *)
Inductive Resolved : Type :=
| Key (k : HotKey)
| PrototypeMember (name : string).

(** ** utils/sequences-from-key-map *)

Definition sequencesFromKeyMap (hotKeyMap : option HotKeyMap) (hotKeyName : string)
  : list Resolved :=
  match hotKeyMap with
  | None => []
  | Some hotKeyMap =>
      match getProperty hotKeyMap hotKeyName with
      | UndefinedProperty => [Key (HKString hotKeyName)]
      | PrototypeProperty member => [PrototypeMember member]
      | OwnProperty sequences =>
          if negb (truthy sequences) then [Key (HKString hotKeyName)]
          else match sequences with
               | Many ks => map Key ks
               | One k => [Key k]
               end
      end
  end.

(** ** hot-keys: data *)

(** A reference to a mounted [HotKeys] instance. *)
Definition ScopeRef := nat.

(** Functions passed in props are opaque; they are told apart by identity,
    which is also how [isEqual] compares functions. *)
Definition FunctionId := nat.

(** The raw event handed over by the matcher is opaque as well. *)
Definition KeyboardEvent := nat.

(** [Element | Window] *)
Inductive DomTarget : Type :=
| Window
| Element (id : nat).

(** What [new Mousetrap(...)] is given: an explicit target, or the result of
    [ReactDOM.findDOMNode(this)], the focus trap rendered by the instance. *)
Inductive BindTarget : Type :=
| Attached (el : DomTarget)
| OwnNode (this : ScopeRef).

(** [handlers?: Record<string, (event?, sequence?) => void>], in
    [Object.keys] order. *)
Abbreviation Handlers := (list (string * FunctionId)).

(** On two [handlers] objects [isEqual] asks for the same keys, in whatever
    order, bound to the same functions. The keys of an object are distinct. *)
#[global] Instance isEqual_handlers : DeepEq Handlers :=
  λ a b, bool_decide (list_to_map a =@{gmap string FunctionId} list_to_map b).

(** One [HotKeys] instance: the context it reads, its props and its four
    instance fields. [props_attach] and [props_attachRef] are [None] when the
    prop is absent; inside, [None] is a [null] target or a ref whose
    [current] is [null]. *)
Record HotKeys : Type := mkHotKeys {
  context_hotKeyParent : option ScopeRef;
  context_hotKeyMap : option HotKeyMap;
  props_keyMap : option HotKeyMap;
  props_handlers : option Handlers;
  props_focused : option bool;
  props_onFocus : option FunctionId;
  props_onBlur : option FunctionId;
  props_attach : option (option DomTarget);
  props_attachRef : option (option DomTarget);
  __isFocused__ : bool;
  __hotKeyMap__ : option HotKeyMap;
  __mousetrap__ : option BindTarget;
  __lastChildSequence__ : option HotKey
}.

(** Field assignments. *)
Definition set_isFocused (b : bool) (s : HotKeys) : HotKeys :=
  mkHotKeys (context_hotKeyParent s) (context_hotKeyMap s) (props_keyMap s)
    (props_handlers s) (props_focused s) (props_onFocus s) (props_onBlur s)
    (props_attach s) (props_attachRef s)
    b (__hotKeyMap__ s) (__mousetrap__ s) (__lastChildSequence__ s).

Definition set_hotKeyMap (m : option HotKeyMap) (s : HotKeys) : HotKeys :=
  mkHotKeys (context_hotKeyParent s) (context_hotKeyMap s) (props_keyMap s)
    (props_handlers s) (props_focused s) (props_onFocus s) (props_onBlur s)
    (props_attach s) (props_attachRef s)
    (__isFocused__ s) m (__mousetrap__ s) (__lastChildSequence__ s).

Definition set_mousetrap (t : option BindTarget) (s : HotKeys) : HotKeys :=
  mkHotKeys (context_hotKeyParent s) (context_hotKeyMap s) (props_keyMap s)
    (props_handlers s) (props_focused s) (props_onFocus s) (props_onBlur s)
    (props_attach s) (props_attachRef s)
    (__isFocused__ s) (__hotKeyMap__ s) t (__lastChildSequence__ s).

Definition set_lastChildSequence (v : option HotKey) (s : HotKeys) : HotKeys :=
  mkHotKeys (context_hotKeyParent s) (context_hotKeyMap s) (props_keyMap s)
    (props_handlers s) (props_focused s) (props_onFocus s) (props_onBlur s)
    (props_attach s) (props_attachRef s)
    (__isFocused__ s) (__hotKeyMap__ s) (__mousetrap__ s) v.

(** The closure built in [syncHandlersToMousetrap]: it captures [this] and
    the handler of the action it was created for. *)
Record Callback : Type := mkCallback {
  cb_this : ScopeRef;
  cb_handler : FunctionId
}.

(** [interface SequenceHandler] of types.ts. Both [action] and [sequence]
    are [undefined] when they were read from an object that has no such
    property. *)
Record SequenceHandler : Type := mkSequenceHandler {
  sh_callback : Callback;
  sh_action : option string;
  sh_sequence : option string
}.

(** Calls observed in program order: the upward notification received by an
    instance, and every call that leaves the component (handlers, the
    [onFocus]/[onBlur] props, the matcher). *)
Inductive Effect : Type :=
| Notified (r : ScopeRef) (sequence : option HotKey)
| HandlerCalled (callback : Callback) (event : option KeyboardEvent)
    (sequence : option string)
| OnFocusCalled (r : ScopeRef) (f : FunctionId)
| OnBlurCalled (r : ScopeRef) (f : FunctionId)
| MousetrapNew (r : ScopeRef) (target : BindTarget)
| MousetrapReset (r : ScopeRef)
| MousetrapBind (r : ScopeRef) (sequence : option string) (callback : Callback)
    (action : option string).

Record World : Type := mkWorld {
  heap : gmap ScopeRef HotKeys;
  trace : list Effect
}.

(** ** hot-keys: the monad of methods *)

(** [RangeError]: the call stack is exhausted (a parent chain that never
    ends). [TypeError]: a method is called through a reference that holds no
    instance. The source itself has no [throw]. *)
Inductive JSError : Type :=
| RangeError
| TypeError.

Inductive Outcome (A : Type) : Type :=
| Returned (a : A) (w : World)
| Thrown (e : JSError) (w : World).
Arguments Returned {A} a w.
Arguments Thrown {A} e w.

Definition M (A : Type) : Type := World → Outcome A.

Definition ret {A} (a : A) : M A := λ w, Returned a w.

Definition bind {A B} (m : M A) (k : A → M B) : M B :=
  λ w, match m w with
       | Returned a w' => k a w'
       | Thrown e w' => Thrown e w'
       end.

Definition throw {A} (e : JSError) : M A := λ w, Thrown e w.

Declare Scope js_scope.
Delimit Scope js_scope with js.
Notation "'let*' x ':=' m 'in' k" := (bind m (λ x, k))
  (at level 10, x name, m at level 100, k at level 200) : js_scope.
Notation "m ;; k" := (bind m (λ _, k))
  (at level 100, k at level 200, right associativity) : js_scope.
Open Scope js_scope.

(** The world a computation leaves behind, whether it returned or threw. *)
Definition world_of {A} (o : Outcome A) : World :=
  match o with
  | Returned _ w => w
  | Thrown _ w => w
  end.

Definition getScope (r : ScopeRef) : M HotKeys :=
  λ w, match heap w !! r with
       | Some s => Returned s w
       | None => Thrown TypeError w
       end.

Definition assign (r : ScopeRef) (f : HotKeys → HotKeys) : M unit :=
  λ w, Returned tt (mkWorld (alter f r (heap w)) (trace w)).

Definition emit (e : Effect) : M unit :=
  λ w, Returned tt (mkWorld (heap w) (trace w ++ [e])).

(** [Array.prototype.forEach] *)
Fixpoint forEach {A} (l : list A) (f : A → M unit) : M unit :=
  match l with
  | [] => ret tt
  | x :: l' => f x ;; forEach l' f
  end.

(** [if (x) { x.m(...) }] on a nullable reference. *)
Definition whenSome {A} (o : option A) (f : A → M unit) : M unit :=
  match o with
  | Some a => f a
  | None => ret tt
  end.

(** ** hot-keys: methods of [HotKeys] *)

(** [getContext()]: what an instance hands down to its descendants. *)
Definition getContext (r : ScopeRef) (this : HotKeys)
  : option ScopeRef * option HotKeyMap :=
  (Some r, __hotKeyMap__ this).

(** [buildMap()]: [{ ...parentMap, ...thisMap }]; a later spread overwrites
    an earlier one key by key, which is the left-biased union with the own
    map on the left. *)
Definition buildMap (this : HotKeys) : HotKeyMap :=
  let parentMap := default ∅ (context_hotKeyMap this) in
  let thisMap := default ∅ (props_keyMap this) in
  thisMap ∪ parentMap.

(** [updateMap()] *)
Definition updateMap (r : ScopeRef) : M bool :=
  let* this := getScope r in
  let newMap := buildMap this in
  if negb (isEqual (Some newMap) (__hotKeyMap__ this)) then
    assign r (set_hotKeyMap (Some newMap)) ;;
    ret true
  else ret false.

(** [getMap()]: [this.__hotKeyMap__ || {}] *)
Definition getMap (this : HotKeys) : option HotKeyMap :=
  Some (default ∅ (__hotKeyMap__ this)).

(** [componentWillMount()] *)
Definition componentWillMount (r : ScopeRef) : M unit :=
  updateMap r ;; ret tt.

(** The element of [sequenceHandlers] pushed for one resolved sequence of
    one handler: [isObject(sequence)] splits a [{sequence, action}] pair,
    and [action] stays [undefined] for a bare string. [isObject] is true of
    a member of [Object.prototype] as well, whose [action] and [sequence]
    are both [undefined]. *)
Definition sequenceHandlerFor (r : ScopeRef) (handler : FunctionId)
    (sequence : Resolved) : SequenceHandler :=
  let callback := mkCallback r handler in
  match sequence with
  | Key (HKObject sequence action) =>
      mkSequenceHandler callback (Some action) (Some sequence)
  | Key (HKString sequence) => mkSequenceHandler callback None (Some sequence)
  | PrototypeMember _ => mkSequenceHandler callback None None
  end.

(** [syncHandlersToMousetrap()] *)
Definition syncHandlersToMousetrap (r : ScopeRef) : M unit :=
  let* this := getScope r in
  let handlers := default [] (props_handlers this) in
  let hotKeyMap := getMap this in
  let sequenceHandlers :=
    flat_map (λ '(hotKey, handler),
                map (sequenceHandlerFor r handler)
                    (sequencesFromKeyMap hotKeyMap hotKey))
             handlers in
  match __mousetrap__ this with
  | Some _ =>
      emit (MousetrapReset r) ;;
      forEach sequenceHandlers (λ sh,
        emit (MousetrapBind r (sh_sequence sh) (sh_callback sh) (sh_action sh)))
  | None => ret tt
  end.

(** [sequence !== this.__lastChildSequence__], between the [string |
    undefined] the matcher passes and the stored [HotKey | null]: only two
    strings can be strictly equal. *)
Definition strictEq (sequence : option string) (last : option HotKey) : bool :=
  match sequence, last with
  | Some s, Some (HKString s') => bool_decide (s = s')
  | _, _ => false
  end.

(** The argument [childHandledSequence] receives from the matcher callback;
    its default parameter turns [undefined] into [null]. *)
Definition handledArg (sequence : option string) : option HotKey :=
  HKString <$> sequence.

(** [isBool(this.props.focused) ? this.props.focused : this.__isFocused__] *)
Definition isFocused (this : HotKeys) : bool :=
  match props_focused this with
  | Some b => b
  | None => __isFocused__ this
  end.

Section Methods.

(** Depth of the call stack left to a recursion. *)
Variable stack_limit : nat.

(** [childHandledSequence(sequence)]; [depth] counts the frames left. *)
Fixpoint childHandledSequence_rec (depth : nat) (r : ScopeRef)
    (sequence : option HotKey) : M unit :=
  match depth with
  | 0 => throw RangeError
  | S depth =>
      let* this := getScope r in
      assign r (set_lastChildSequence sequence) ;;
      emit (Notified r sequence) ;;
      whenSome (context_hotKeyParent this) (λ hotKeyParent,
        childHandledSequence_rec depth hotKeyParent sequence)
  end.

Definition childHandledSequence (r : ScopeRef) (sequence : option HotKey)
  : M unit :=
  childHandledSequence_rec stack_limit r sequence.

(** The closure [callback] of [syncHandlersToMousetrap], as the matcher
    calls it. *)
Definition callback (cb : Callback) (event : option KeyboardEvent)
    (sequence : option string) : M unit :=
  let* this := getScope (cb_this cb) in
  if isFocused this && negb (strictEq sequence (__lastChildSequence__ this)) then
    whenSome (context_hotKeyParent this) (λ hotKeyParent,
      childHandledSequence hotKeyParent (handledArg sequence)) ;;
    emit (HandlerCalled cb event sequence)
  else ret tt.

(** [updateHotKeys(force, prevProps)]; of [prevProps] only [handlers] is
    read, and it defaults to the current handlers. *)
Definition updateHotKeys (r : ScopeRef) (force : bool)
    (prevProps_handlers : option Handlers) : M unit :=
  let* this := getScope r in
  let handlers := default [] (props_handlers this) in
  let prevHandlers := default handlers prevProps_handlers in
  let* keyMapHasChanged := updateMap r in
  if force || keyMapHasChanged || hasChanged handlers prevHandlers then
    whenSome (context_hotKeyParent this) (λ hotKeyParent,
      childHandledSequence hotKeyParent None) ;;
    syncHandlersToMousetrap r
  else ret tt.

(** The target chosen in [componentDidMount]:
    ['attach' in this.props ? this.props.attach : this.props.attachRef?.current],
    then [el || ReactDOM.findDOMNode(this)]. *)
Definition bindTarget (r : ScopeRef) (this : HotKeys) : BindTarget :=
  let el := match props_attach this with
            | Some attach => attach
            | None => match props_attachRef this with
                      | Some current => current
                      | None => None
                      end
            end in
  match el with
  | Some el => Attached el
  | None => OwnNode r
  end.

(** [componentDidMount()] *)
Definition componentDidMount (r : ScopeRef) : M unit :=
  let* this := getScope r in
  let target := bindTarget r this in
  assign r (set_mousetrap (Some target)) ;;
  emit (MousetrapNew r target) ;;
  updateHotKeys r true None.

(** [componentDidUpdate(prevProps)] *)
Definition componentDidUpdate (r : ScopeRef)
    (prevProps_handlers : option Handlers) : M unit :=
  updateHotKeys r false prevProps_handlers.

(** [componentWillUnmount()] *)
Definition componentWillUnmount (r : ScopeRef) : M unit :=
  let* this := getScope r in
  whenSome (context_hotKeyParent this) (λ hotKeyParent,
    childHandledSequence hotKeyParent None) ;;
  whenSome (__mousetrap__ this) (λ _, emit (MousetrapReset r)).

(** [onFocus(...args)] *)
Definition onFocus (r : ScopeRef) : M unit :=
  let* this := getScope r in
  assign r (set_isFocused true) ;;
  whenSome (props_onFocus this) (λ f, emit (OnFocusCalled r f)).

(** [onBlur(...args)] *)
Definition onBlur (r : ScopeRef) : M unit :=
  let* this := getScope r in
  assign r (set_isFocused false) ;;
  whenSome (props_onBlur this) (λ f, emit (OnBlurCalled r f)) ;;
  whenSome (context_hotKeyParent this) (λ hotKeyParent,
    childHandledSequence hotKeyParent None).

End Methods.

(** ** The calls an instance can receive *)

(** Every method of [HotKeys] that changes state or has an effect, with its
    arguments: React's lifecycle, the two focus-trap events, a matcher
    callback created for one of the instance's handlers, and the
    notification sent by a descendant. *)
Inductive Call : Type :=
| ComponentWillMount
| ComponentDidMount
| ComponentDidUpdate (prevProps_handlers : option Handlers)
| ComponentWillUnmount
| UpdateMap
| UpdateHotKeys (force : bool) (prevProps_handlers : option Handlers)
| SyncHandlersToMousetrap
| ChildHandledSequence (sequence : option HotKey)
| OnFocus
| OnBlur
| MatcherCallback (handler : FunctionId) (event : option KeyboardEvent)
    (sequence : option string).

Definition perform (stack_limit : nat) (r : ScopeRef) (c : Call) : M unit :=
  match c with
  | ComponentWillMount => componentWillMount r
  | ComponentDidMount => componentDidMount stack_limit r
  | ComponentDidUpdate prev => componentDidUpdate stack_limit r prev
  | ComponentWillUnmount => componentWillUnmount stack_limit r
  | UpdateMap => updateMap r ;; ret tt
  | UpdateHotKeys force prev => updateHotKeys stack_limit r force prev
  | SyncHandlersToMousetrap => syncHandlersToMousetrap r
  | ChildHandledSequence sequence => childHandledSequence stack_limit r sequence
  | OnFocus => onFocus r
  | OnBlur => onBlur stack_limit r
  | MatcherCallback handler event sequence =>
      callback stack_limit (mkCallback r handler) event sequence
  end.

(** A history: calls delivered one after the other by the host. An
    exception ends the call that raised it, not the ones that follow. *)
Definition after (stack_limit : nat) (history : list (ScopeRef * Call))
    (w : World) : World :=
  foldl (λ w '(r, c), world_of (perform stack_limit r c w)) w history.

(** ** The scope tree *)

(** [chain h r l]: following [context.hotKeyParent] from [r] visits exactly
    the instances [l], [r] first and a root last. *)
Inductive chain (h : gmap ScopeRef HotKeys) : ScopeRef → list ScopeRef → Prop :=
| chain_root r this :
    h !! r = Some this →
    context_hotKeyParent this = None →
    chain h r [r]
| chain_parent r this p l :
    h !! r = Some this →
    context_hotKeyParent this = Some p →
    chain h p l →
    chain h r (r :: l).

(** The ancestors of an instance, from the nearest to the root. *)
Definition ancestors (h : gmap ScopeRef HotKeys) (this : HotKeys)
    (l : list ScopeRef) : Prop :=
  match context_hotKeyParent this with
  | None => l = []
  | Some p => chain h p l
  end.

(** The notifications received along a list of instances. *)
Definition notifications (sequence : option HotKey) (l : list ScopeRef)
  : list Effect :=
  map (λ q, Notified q sequence) l.

(** The heap once every instance of [l] has stored [sequence]. *)
Definition notifyHeap (sequence : option HotKey) (l : list ScopeRef)
    (h : gmap ScopeRef HotKeys) : gmap ScopeRef HotKeys :=
  foldl (λ h q, alter (set_lastChildSequence sequence) q h) h l.

(** The calls to [bind] that one pass of [syncHandlersToMousetrap] makes for
    [handlers] under [hotKeyMap]. *)
Definition bindCall (r : ScopeRef) (handler : FunctionId) (descriptor : Resolved)
  : Effect :=
  match descriptor with
  | Key (HKString sequence) =>
      MousetrapBind r (Some sequence) (mkCallback r handler) None
  | Key (HKObject sequence action) =>
      MousetrapBind r (Some sequence) (mkCallback r handler) (Some action)
  | PrototypeMember _ =>
      MousetrapBind r None (mkCallback r handler) None
  end.

(** What the matcher sees during one pass of [syncHandlersToMousetrap]. *)
Definition syncCalls (r : ScopeRef) (this : HotKeys) : list Effect :=
  match __mousetrap__ this with
  | Some _ =>
      MousetrapReset r ::
      flat_map (λ '(actionName, handler),
                  map (bindCall r handler)
                      (sequencesFromKeyMap (getMap this) actionName))
               (default [] (props_handlers this))
  | None => []
  end.

(** A call is rejected when it ends in an exception. *)
Definition rejects {A} (o : Outcome A) : Prop :=
  ∃ e w, o = Thrown e w.

(** Whether an effect is a handler invoked by a callback of instance [r]. *)
Definition handlerCalledBy (r : ScopeRef) (e : Effect) : bool :=
  match e with
  | HandlerCalled cb _ _ => bool_decide (cb_this cb = r)
  | _ => false
  end.

(** ** The resolver as the specification words it *)

(** No entry: the action name itself; a list: the list; a single descriptor:
    the descriptor in a one-element list. *)
Definition resolve_spec (mergedMap : HotKeyMap) (actionName : string)
  : list HotKey :=
  match mergedMap !! actionName with
  | None => [HKString actionName]
  | Some (Many ks) => ks
  | Some (One k) => [k]
  end.

(** ** Relations between the world before and after a call *)

(** [ancestor_of h r q]: [q] is reached from [r] by following
    [context.hotKeyParent] at least once. *)
Inductive ancestor_of (h : gmap ScopeRef HotKeys) : ScopeRef → ScopeRef → Prop :=
| ancestor_parent r this p :
    h !! r = Some this →
    context_hotKeyParent this = Some p →
    ancestor_of h r p
| ancestor_further r this p q :
    h !! r = Some this →
    context_hotKeyParent this = Some p →
    ancestor_of h p q →
    ancestor_of h r q.

(** [respects P R m]: started in a world where [P] holds, [m] leaves a
    world, by returning or by throwing, that [R] relates to the first. *)
Definition respects {A} (P : World → Prop) (R : World → World → Prop)
    (m : M A) : Prop :=
  ∀ w, P w → R w (world_of (m w)).

(** The parent recorded for instance [r]. *)
Definition parent_is (r : ScopeRef) (parent : option ScopeRef) (w : World) : Prop :=
  context_hotKeyParent <$> heap w !! r = Some parent.

(** [touches r w w']: between [w] and [w'] no instance appeared, vanished
    or changed parent, and every instance other than [r] is either as it
    was, or differs only by a [__lastChildSequence__] that a recorded
    notification stored in it, in which case it is an ancestor of [r]. *)
Definition touches (r : ScopeRef) (w w' : World) : Prop :=
  (∀ q, context_hotKeyParent <$> heap w' !! q
        = context_hotKeyParent <$> heap w !! q)
  ∧ ∃ t, trace w' = trace w ++ t
         ∧ ∀ r', r' ≠ r →
             heap w' !! r' = heap w !! r'
             ∨ ∃ v, heap w' !! r' = set_lastChildSequence v <$> heap w !! r'
                    ∧ Notified r' v ∈ t
                    ∧ ancestor_of (heap w) r r'.

(** Instance [r] is forced out of focus. *)
Definition forced_unfocused (r : ScopeRef) (w : World) : Prop :=
  props_focused <$> heap w !! r = Some (Some false).

(** [silent r w w']: between [w] and [w'] no instance changed its [focused]
    prop, and none of the effects recorded is a handler called by a callback
    of [r]. *)
Definition silent (r : ScopeRef) (w w' : World) : Prop :=
  (∀ q, props_focused <$> heap w' !! q = props_focused <$> heap w !! q)
  ∧ ∃ t, trace w' = trace w ++ t
         ∧ Forall (λ e, handlerCalledBy r e = false) t.

(** ** Sample worlds *)

Open Scope string_scope.

(** A root, a child and a grandchild, all mounted and focused; the root
    declares the key map, the two others inherit it. *)
Definition sample_map : HotKeyMap :=
  {[ "save" := One (HKString "ctrl+s");
     "close" := Many [HKString "esc"; HKObject "q" "keyup"] ]}.

Definition sample_root : HotKeys :=
  mkHotKeys None None (Some sample_map) (Some [("save", 10)]) None None None
    (Some (Some Window)) None
    true (Some sample_map) (Some (Attached Window)) (Some (HKString "ctrl+s")).

Definition sample_child : HotKeys :=
  mkHotKeys (Some 0) (Some sample_map) None (Some [("save", 11); ("close", 12)])
    None None (Some 21) None None
    true (Some sample_map) (Some (OwnNode 1)) (Some (HKString "esc")).

Definition sample_leaf : HotKeys :=
  mkHotKeys (Some 1) (Some sample_map) None (Some [("save", 13)])
    (Some false) None None None (Some None)
    true (Some sample_map) (Some (OwnNode 2)) None.

(** An instance given both [attach] and [attachRef]. *)
Definition sample_both : HotKeys :=
  mkHotKeys None None None None None None None
    (Some (Some Window)) (Some (Some (Element 5)))
    false None None None.

Definition sample_world : World :=
  mkWorld {[ 0 := sample_root; 1 := sample_child; 2 := sample_leaf ]} [].

Close Scope string_scope.

(** ** What the calls leave alone, and what they record *)

(** The part of an instance that React owns: its context and its props. *)
Definition config (s : HotKeys) :=
  (context_hotKeyParent s, context_hotKeyMap s, props_keyMap s,
   props_handlers s, props_focused s, props_onFocus s, props_onBlur s,
   props_attach s, props_attachRef s).

(** [same_config w w']: the same references hold instances in [w] and in
    [w'], each with the context and the props it had. *)
Definition same_config (w w' : World) : Prop :=
  ∀ q, config <$> heap w' !! q = config <$> heap w !! q.

(** No condition on the world a call starts in. *)
Definition anywhere (w : World) : Prop := True.

(** Whether an effect is a notification, or else concerns instance [r] only:
    its matcher, its prop callbacks, a callback bound for it. *)
Definition own_effect (r : ScopeRef) (e : Effect) : bool :=
  match e with
  | Notified _ _ => true
  | HandlerCalled cb _ _ => bool_decide (cb_this cb = r)
  | OnFocusCalled q _ => bool_decide (q = r)
  | OnBlurCalled q _ => bool_decide (q = r)
  | MousetrapNew q _ => bool_decide (q = r)
  | MousetrapReset q => bool_decide (q = r)
  | MousetrapBind q _ cb _ => bool_decide (q = r) && bool_decide (cb_this cb = r)
  end.

(** [records_own r w w']: the trace of [w'] continues the trace of [w] with
    notifications and effects of [r] alone. *)
Definition records_own (r : ScopeRef) (w w' : World) : Prop :=
  ∃ t, trace w' = trace w ++ t ∧ Forall (λ e, own_effect r e = true) t.

(** A root whose [focused] prop is [true] though it never had focus, with a
    child that also listens to "ctrl+s". *)
Definition sample_forced_world : World :=
  mkWorld
    {[ 0 := mkHotKeys None None None (Some [("ctrl+s"%string, 30)]) (Some true)
              None None None None
              false (Some ∅) (Some (OwnNode 0)) None;
       1 := mkHotKeys (Some 0) (Some ∅) None (Some [("ctrl+s"%string, 31)]) None
              None None None None
              true (Some ∅) (Some (OwnNode 1)) None ]}
    [].

(** ** focus-trap, and [render] of hot-keys *)

(** A value found in a props object. The application's own values are
    opaque; the values the two components put there themselves are told
    apart: the [FocusTrap] class, a method of a [HotKeys] instance bound in
    its constructor, and the context provider wrapped around the children.
    A prop that is passed holds a value; a prop that is not is no key. *)
#[warnings="-register-all"] Inductive JSValue : Type :=
| VNumber (n : Z)
| VString (s : string)
| VOpaque (id : nat)
| VFocusTrap
| VBoundMethod (r : ScopeRef) (name : string)
| VProvider (hotKeyParent : option ScopeRef) (hotKeyMap : option HotKeyMap)
    (children : option JSValue).

Abbreviation Props := (gmap string JSValue).

(** What [React.createElement(type, props, children)] returns. *)
Record ReactElement : Type := mkElement {
  el_type : JSValue;
  el_props : Props;
  el_children : option JSValue
}.

(** The props a component instance sees for an element: the children are
    passed along as the prop [children]. *)
Definition propsOf (e : ReactElement) : Props :=
  match el_children e with
  | Some c => <["children"%string := c]> (el_props e)
  | None => el_props e
  end.

Module FocusTrap.

(** [static defaultProps = { component: 'div' }] *)
Definition defaultProps : Props := {[ "component"%string := VString "div" ]}.

(** [render()]: [this.props] is what was passed, completed by
    [defaultProps]; [<Component tabIndex={-1} {...props}>] lets a later
    spread overwrite the [tabIndex] written before it. *)
Definition render (passed : Props) : ReactElement :=
  let this_props := passed ∪ defaultProps in
  let Component := default (VString "div") (this_props !! "component"%string) in
  let children := this_props !! "children"%string in
  let props := delete "children"%string (delete "component"%string this_props) in
  mkElement Component (props ∪ {[ "tabIndex"%string := VNumber (-1) ]}) children.

End FocusTrap.

(** [render()] of [HotKeys]: the props [HotKeys] uses itself are taken out,
    the rest goes to the focus trap, with [onFocus] and [onBlur] written
    after the spread; the children sit in a provider of [getContext()]. *)
Definition render (r : ScopeRef) (this : HotKeys) (this_props : Props)
  : ReactElement :=
  let children := this_props !! "children"%string in
  let props :=
    delete "children"%string
      (delete "attachRef"%string
         (delete "attach"%string
            (delete "focused"%string
               (delete "handlers"%string
                  (delete "keyMap"%string this_props))))) in
  mkElement VFocusTrap
    (<["onBlur"%string := VBoundMethod r "onBlur"]>
       (<["onFocus"%string := VBoundMethod r "onFocus"]> props))
    (Some (VProvider (getContext r this).1 (getContext r this).2 children)).

(** The host element that ends up in the page for a [HotKeys] instance. *)
Definition hostElement (r : ScopeRef) (this : HotKeys) (this_props : Props)
  : ReactElement :=
  FocusTrap.render (propsOf (render r this this_props)).

(** * Properties *)

(** ** The resolver and the merger *)

Lemma sequencesFromKeyMap_null hotKeyName :
  sequencesFromKeyMap None hotKeyName = [].
Proof. reflexivity. Qed.

(** C3. [buildMap] binds every action name of the instance's own key map to
    the own entry, whole, and every other action name to whatever the
    ancestor's map binds it to (or leaves it unbound). *)
Theorem buildMap_own_entry_replaces (this : HotKeys) (actionName : string) :
  buildMap this !! actionName =
    match default ∅ (props_keyMap this) !! actionName with
    | Some own => Some own
    | None => default ∅ (context_hotKeyMap this) !! actionName
    end.
Proof.
  unfold buildMap. rewrite lookup_union.
  destruct (default ∅ (props_keyMap this) !! actionName) as [own|] eqn:E.
  - by destruct (default ∅ (context_hotKeyMap this) !! actionName).
  - by destruct (default ∅ (context_hotKeyMap this) !! actionName).
Qed.

Lemma getProperty_own (hotKeyMap : HotKeyMap) hotKeyName v :
  hotKeyMap !! hotKeyName = Some v →
  getProperty hotKeyMap hotKeyName = OwnProperty v.
Proof. intros H. unfold getProperty. by rewrite H. Qed.

Lemma getProperty_undefined (hotKeyMap : HotKeyMap) hotKeyName :
  hotKeyMap !! hotKeyName = None →
  inherited hotKeyName = false →
  getProperty hotKeyMap hotKeyName = UndefinedProperty.
Proof. intros H Hi. unfold getProperty. by rewrite H, Hi. Qed.

Lemma getProperty_inherited (hotKeyMap : HotKeyMap) hotKeyName :
  hotKeyMap !! hotKeyName = None →
  inherited hotKeyName = true →
  getProperty hotKeyMap hotKeyName = PrototypeProperty hotKeyName.
Proof. intros H Hi. unfold getProperty. by rewrite H, Hi. Qed.

(** C4, where the specified resolver and the source part: an entry that is
    the empty string is a single descriptor, yet the resolver answers with
    the action name. *)
Lemma sequencesFromKeyMap_empty_string_entry :
  let mergedMap : HotKeyMap := {[ "y"%string := One (HKString EmptyString) ]} in
  sequencesFromKeyMap (Some mergedMap) "y" = [Key (HKString "y")]
  ∧ resolve_spec mergedMap "y" = [HKString EmptyString]
  ∧ sequencesFromKeyMap (Some mergedMap) "y" ≠ map Key (resolve_spec mergedMap "y").
Proof.
  intros mergedMap.
  assert (E1 : sequencesFromKeyMap (Some mergedMap) "y" = [Key (HKString "y")])
    by (vm_compute; reflexivity).
  assert (E2 : resolve_spec mergedMap "y" = [HKString EmptyString])
    by (vm_compute; reflexivity).
  split; [exact E1|]. split; [exact E2|].
  rewrite E1, E2. discriminate.
Qed.

(** C4, amended. On a key map (not [null]), the resolver returns the action
    name alone when the name has no entry and is not the name of a member
    of [Object.prototype], or when its entry is the empty string; the entry
    itself when it is a list; and the entry in a one-element list when it is
    any other single descriptor. *)
Theorem sequencesFromKeyMap_cases (mergedMap : HotKeyMap) (actionName : string) :
  (mergedMap !! actionName = None →
   inherited actionName = false →
   sequencesFromKeyMap (Some mergedMap) actionName = [Key (HKString actionName)])
  ∧ (∀ entry,
       mergedMap !! actionName = Some entry →
       sequencesFromKeyMap (Some mergedMap) actionName =
         map Key
           match entry with
           | Many ks => ks
           | One (HKString EmptyString) => [HKString actionName]
           | One k => [k]
           end).
Proof.
  split.
  - intros Hnone Hown. unfold sequencesFromKeyMap.
    by rewrite (getProperty_undefined _ _ Hnone Hown).
  - intros entry Hentry. unfold sequencesFromKeyMap.
    rewrite (getProperty_own _ _ _ Hentry).
    destruct entry as [[s|sq ac]|ks]; try reflexivity.
    destruct s; reflexivity.
Qed.

(** The sample map declares "close" as a list and says nothing of "undo". *)
Lemma sequencesFromKeyMap_cases_witness :
  sequencesFromKeyMap (Some sample_map) "undo" = [Key (HKString "undo")]
  ∧ sequencesFromKeyMap (Some sample_map) "close"
    = [Key (HKString "esc"); Key (HKObject "q" "keyup")]
  ∧ sequencesFromKeyMap (Some sample_map) "save" = [Key (HKString "ctrl+s")].
Proof.
  split; [|split].
  - apply (sequencesFromKeyMap_cases sample_map "undo"); vm_compute; reflexivity.
  - apply (proj2 (sequencesFromKeyMap_cases sample_map "close")
             (Many [HKString "esc"; HKObject "q" "keyup"])).
    vm_compute; reflexivity.
  - apply (proj2 (sequencesFromKeyMap_cases sample_map "save")
             (One (HKString "ctrl+s"))).
    vm_compute; reflexivity.
Defined.

(** A name without an entry that [Object.prototype] knows resolves to the
    inherited member, not to the name. *)
Lemma sequencesFromKeyMap_inherited_name (mergedMap : HotKeyMap) actionName :
  mergedMap !! actionName = None →
  inherited actionName = true →
  sequencesFromKeyMap (Some mergedMap) actionName = [PrototypeMember actionName].
Proof.
  intros Hnone Hin. unfold sequencesFromKeyMap.
  by rewrite (getProperty_inherited _ _ Hnone Hin).
Qed.

(** Away from the empty-string entry and from the inherited names the
    resolver is the specified one. *)
Lemma sequencesFromKeyMap_resolve_spec (mergedMap : HotKeyMap) actionName :
  mergedMap !! actionName ≠ Some (One (HKString EmptyString)) →
  (mergedMap !! actionName = None → inherited actionName = false) →
  sequencesFromKeyMap (Some mergedMap) actionName
  = map Key (resolve_spec mergedMap actionName).
Proof.
  intros Hne Hown. unfold sequencesFromKeyMap, resolve_spec, getProperty.
  destruct (mergedMap !! actionName) as [[[s|sq ac]|ks]|]; try reflexivity.
  - destruct s; [congruence | reflexivity].
  - by rewrite Hown.
Qed.

(** ** Field assignments and the parent chain *)

Lemma notifyHeap_cons v q l h :
  notifyHeap v (q :: l) h = notifyHeap v l (alter (set_lastChildSequence v) q h).
Proof. reflexivity. Qed.

Lemma notifyHeap_lookup_notin v l h q :
  q ∉ l → notifyHeap v l h !! q = h !! q.
Proof.
  revert h. induction l as [|p l IH]; intros h Hq; [reflexivity|].
  apply not_elem_of_cons in Hq as [Hne Hq].
  rewrite notifyHeap_cons, IH by exact Hq.
  apply lookup_alter_ne. congruence.
Qed.

Lemma notifyHeap_lookup_in v l h q :
  q ∈ l → notifyHeap v l h !! q = set_lastChildSequence v <$> h !! q.
Proof.
  revert h. induction l as [|p l IH]; intros h Hq; [by apply elem_of_nil in Hq|].
  rewrite notifyHeap_cons.
  destruct (decide (q ∈ l)) as [Hin|Hnotin].
  - rewrite IH by done. destruct (decide (p = q)) as [->|Hne].
    + rewrite lookup_alter_eq. by destruct (h !! q).
    + by rewrite lookup_alter_ne.
  - apply elem_of_cons in Hq as [->|Hq]; [|done].
    rewrite notifyHeap_lookup_notin by done. apply lookup_alter_eq.
Qed.

(** A chain only depends on which instance each reference names as its
    parent. *)
Lemma chain_ext h h' r l :
  (∀ q, context_hotKeyParent <$> h' !! q = context_hotKeyParent <$> h !! q) →
  chain h r l → chain h' r l.
Proof.
  intros Hext Hc. induction Hc as [r this Hr Hp|r this p l Hr Hp _ IH].
  - specialize (Hext r). rewrite Hr in Hext.
    destruct (h' !! r) as [this'|] eqn:E; [|discriminate].
    apply (chain_root _ _ this'); [done|]. simpl in Hext. congruence.
  - specialize (Hext r). rewrite Hr in Hext.
    destruct (h' !! r) as [this'|] eqn:E; [|discriminate].
    apply (chain_parent _ _ this' p); [done| |done]. simpl in Hext. congruence.
Qed.

Lemma chain_alter h f q r l :
  (∀ s, context_hotKeyParent (f s) = context_hotKeyParent s) →
  chain h r l → chain (alter f q h) r l.
Proof.
  intros Hf. apply chain_ext. intros q'.
  destruct (decide (q = q')) as [->|Hne].
  - rewrite lookup_alter_eq. destruct (h !! q'); simpl; [by rewrite Hf|done].
  - by rewrite lookup_alter_ne.
Qed.

Lemma chain_head h r l : chain h r l → ∃ l', l = r :: l'.
Proof. destruct 1; eauto. Qed.

Lemma chain_functional h r l1 l2 : chain h r l1 → chain h r l2 → l1 = l2.
Proof.
  intros H1. revert l2.
  induction H1 as [r this Hr Hp|r this p l Hr Hp _ IH]; intros l2 H2;
    inversion H2; subst; try congruence.
  f_equal. apply IH. congruence.
Qed.

(** ** The upward notification *)

(** Along a finite chain that fits the stack, the notification returns
    after every instance of the chain, nearest first, has stored the
    sequence. *)
Lemma childHandledSequence_rec_chain depth r v w l :
  chain (heap w) r l →
  length l ≤ depth →
  childHandledSequence_rec depth r v w =
    Returned tt (mkWorld (notifyHeap v l (heap w)) (trace w ++ notifications v l)).
Proof.
  intros Hc. revert r depth w Hc.
  induction l as [|q l IH]; intros r depth w Hc Hlen.
  { apply chain_head in Hc as [? ?]. discriminate. }
  destruct depth as [|depth]; [simpl in Hlen; lia|].
  inversion Hc as [r' this Hr Hp|r' this p l' Hr Hp Hl]; subst.
  - simpl. unfold bind, getScope. rewrite Hr. simpl. rewrite Hp. reflexivity.
  - simpl. unfold bind, getScope. rewrite Hr. simpl. rewrite Hp. simpl.
    rewrite IH; simpl.
    + by rewrite <- app_assoc.
    + by apply chain_alter.
    + simpl in Hlen. lia.
Qed.

(** On any heap, however far the notification gets, all it does is store
    the sequence in the instances it visits and record the visits. *)
Lemma childHandledSequence_rec_visits depth r v w :
  ∃ l, world_of (childHandledSequence_rec depth r v w) =
         mkWorld (notifyHeap v l (heap w)) (trace w ++ notifications v l).
Proof.
  revert r w. induction depth as [|depth IH]; intros r w.
  { exists []. simpl. rewrite app_nil_r. by destruct w. }
  simpl. unfold bind, getScope.
  destruct (heap w !! r) as [this|] eqn:Hr.
  - simpl. destruct (context_hotKeyParent this) as [p|]; simpl.
    + destruct (IH p (mkWorld (alter (set_lastChildSequence v) r (heap w))
                        (trace w ++ [Notified r v]))) as [l Hl].
      exists (r :: l). rewrite Hl. simpl. by rewrite <- app_assoc.
    + by exists [r].
  - exists []. simpl. rewrite app_nil_r. by destruct w.
Qed.

Lemma alter_Some_insert (h : gmap ScopeRef HotKeys) r f this :
  h !! r = Some this → alter f r h = <[r := f this]> h.
Proof.
  intros Hr. apply map_eq. intros q. destruct (decide (r = q)) as [->|Hne].
  - by rewrite lookup_alter_eq, lookup_insert_eq, Hr.
  - by rewrite lookup_alter_ne, lookup_insert_ne.
Qed.

(** The notification sent to the parent, if there is one, along the
    ancestors of an instance. *)
Lemma notify_parent_ancestors stack_limit h this l v w :
  heap w = h →
  ancestors h this l →
  length l ≤ stack_limit →
  whenSome (context_hotKeyParent this)
    (λ hotKeyParent, childHandledSequence stack_limit hotKeyParent v) w =
    Returned tt (mkWorld (notifyHeap v l (heap w)) (trace w ++ notifications v l)).
Proof.
  intros <- Ha Hlen. unfold ancestors in Ha.
  destruct (context_hotKeyParent this) as [p|]; simpl.
  - by apply childHandledSequence_rec_chain.
  - subst l. simpl. rewrite app_nil_r. by destruct w.
Qed.

Lemma ancestors_alter h f q this l :
  (∀ s, context_hotKeyParent (f s) = context_hotKeyParent s) →
  ancestors h this l → ancestors (alter f q h) this l.
Proof.
  intros Hf. unfold ancestors. destruct (context_hotKeyParent this); [|done].
  by apply chain_alter.
Qed.

(** ** The key-map cache *)

Lemma updateMap_unchanged r w this :
  heap w !! r = Some this →
  Some (buildMap this) = __hotKeyMap__ this →
  updateMap r w = Returned false w.
Proof.
  intros Hr Heq. unfold updateMap, bind, getScope. rewrite Hr.
  unfold isEqual, isEqual_keyMap. by rewrite bool_decide_eq_true_2.
Qed.

Lemma updateMap_changed r w this :
  heap w !! r = Some this →
  Some (buildMap this) ≠ __hotKeyMap__ this →
  updateMap r w =
    Returned true
      (mkWorld (<[r := set_hotKeyMap (Some (buildMap this)) this]> (heap w))
               (trace w)).
Proof.
  intros Hr Hne. unfold updateMap, bind, getScope. rewrite Hr.
  unfold isEqual, isEqual_keyMap. rewrite bool_decide_eq_false_2 by done. simpl.
  unfold assign. by rewrite (alter_Some_insert _ _ _ this).
Qed.

(** C5. [updateMap] compares the freshly built map with the cached one by
    structural equality. When they differ it stores the fresh map and
    reports [true]; when they are equal it reports [false] and leaves the
    world as it was, so that a second call does the same and
    [updateHotKeys], with handlers equal to the previous ones, neither
    notifies nor touches the matcher. After any call, a further call with
    the same inputs reports [false]. *)
Theorem updateMap_reports_change (stack_limit : nat) (r : ScopeRef)
    (w : World) (this : HotKeys) :
  heap w !! r = Some this →
  (Some (buildMap this) ≠ __hotKeyMap__ this →
     updateMap r w =
       Returned true
         (mkWorld (<[r := set_hotKeyMap (Some (buildMap this)) this]> (heap w))
                  (trace w)))
  ∧ (Some (buildMap this) = __hotKeyMap__ this →
       updateMap r w = Returned false w
       ∧ (updateMap r ;; updateMap r) w = Returned false w
       ∧ ∀ prev,
           hasChanged (default [] (props_handlers this))
                      (default (default [] (props_handlers this)) prev) = false →
           updateHotKeys stack_limit r false prev w = Returned tt w)
  ∧ (∀ b w1, updateMap r w = Returned b w1 → updateMap r w1 = Returned false w1).
Proof.
  intros Hr. split; [|split].
  - by apply updateMap_changed.
  - intros Heq. pose proof (updateMap_unchanged r w this Hr Heq) as Hu.
    split; [exact Hu|]. split.
    + unfold bind. by rewrite Hu.
    + intros prev Hsame. unfold updateHotKeys, bind, getScope at 1.
      rewrite Hr, Hu. simpl. by rewrite Hsame.
  - intros b w1 Hu.
    destruct (decide (Some (buildMap this) = __hotKeyMap__ this)) as [Heq|Hne].
    + rewrite (updateMap_unchanged r w this Hr Heq) in Hu.
      inversion Hu; subst. by apply (updateMap_unchanged _ _ this).
    + rewrite (updateMap_changed r w this Hr Hne) in Hu.
      inversion Hu; subst.
      apply (updateMap_unchanged _ _ (set_hotKeyMap (Some (buildMap this)) this)).
      * simpl. apply lookup_insert_eq.
      * reflexivity.
Qed.

(** The child of the sample tree has a current cache; a lone instance that
    was never merged has none. *)
Lemma updateMap_reports_change_witness :
  (updateMap 1 sample_world = Returned false sample_world
   ∧ (updateMap 1 ;; updateMap 1) sample_world = Returned false sample_world
   ∧ updateHotKeys 8 1 false (Some [("close"%string, 12); ("save"%string, 11)])
       sample_world = Returned tt sample_world)
  ∧ (∃ w1, updateMap 0 (mkWorld {[ 0 := sample_both ]} []) = Returned true w1
           ∧ heap w1 !! 0 = Some (set_hotKeyMap (Some ∅) sample_both)
           ∧ updateMap 0 w1 = Returned false w1).
Proof.
  split.
  - destruct (updateMap_reports_change 8 1 sample_world sample_child)
      as (_ & Hsame & _); [vm_compute; reflexivity|].
    destruct Hsame as (H1 & H2 & H3); [vm_compute; reflexivity|].
    split; [exact H1|]. split; [exact H2|].
    apply H3. vm_compute. reflexivity.
  - destruct (updateMap_reports_change 8 0 (mkWorld {[ 0 := sample_both ]} [])
                sample_both) as (Hchanged & _ & Hagain);
      [vm_compute; reflexivity|].
    eexists. split; [apply Hchanged; discriminate|].
    split; [vm_compute; reflexivity|].
    apply (Hagain true). apply Hchanged. discriminate.
Defined.

(** ** Acyclicity of a finite chain *)

Lemma chain_from_member h p l q :
  chain h p l → q ∈ l → ∃ l', chain h q l' ∧ length l' ≤ length l.
Proof.
  intros Hc. induction Hc as [r this Hr Hp|r this p l Hr Hp Hc IH]; intros Hq.
  - apply elem_of_cons in Hq as [->|Hq]; [|by apply elem_of_nil in Hq].
    exists [r]. split; [by apply (chain_root _ _ this)|done].
  - apply elem_of_cons in Hq as [->|Hq].
    + exists (r :: l). split; [by apply (chain_parent _ _ this p)|done].
    + destruct (IH Hq) as (l' & Hl' & Hlen). exists l'. split; [done|].
      simpl. lia.
Qed.

(** An instance is not among its own ancestors. *)
Lemma ancestors_not_self h r this l :
  h !! r = Some this → ancestors h this l → r ∉ l.
Proof.
  intros Hr Ha Hin. unfold ancestors in Ha.
  destruct (context_hotKeyParent this) as [p|] eqn:Hp.
  - destruct (chain_from_member _ _ _ _ Ha Hin) as (l' & Hl' & Hlen).
    pose proof (chain_parent _ _ _ _ _ Hr Hp Ha) as Hfull.
    pose proof (chain_functional _ _ _ _ Hl' Hfull) as ->.
    simpl in Hlen. lia.
  - subst l. by apply elem_of_nil in Hin.
Qed.

Lemma chain_member_lookup h r l q : chain h r l → q ∈ l → is_Some (h !! q).
Proof.
  intros Hc Hq. destruct (chain_from_member _ _ _ _ Hc Hq) as (l' & Hl' & _).
  inversion Hl'; eauto.
Qed.

Lemma ancestors_member_lookup h this l q :
  ancestors h this l → q ∈ l → is_Some (h !! q).
Proof.
  unfold ancestors. destruct (context_hotKeyParent this).
  - apply chain_member_lookup.
  - intros -> Hq. by apply elem_of_nil in Hq.
Qed.

Lemma notifyHeap_stored v l h q :
  q ∈ l → is_Some (h !! q) →
  __lastChildSequence__ <$> notifyHeap v l h !! q = Some v.
Proof.
  intros Hq [a Hqa]. by rewrite notifyHeap_lookup_in, Hqa.
Qed.

(** ** The focus gate *)

Lemma callback_suppressed stack_limit cb event sequence w this :
  heap w !! cb_this cb = Some this →
  isFocused this && negb (strictEq sequence (__lastChildSequence__ this)) = false →
  callback stack_limit cb event sequence w = Returned tt w.
Proof.
  intros Hr Hgate. unfold callback, bind, getScope. by rewrite Hr, Hgate.
Qed.

Lemma callback_fires stack_limit cb event sequence w this l :
  heap w !! cb_this cb = Some this →
  ancestors (heap w) this l →
  length l ≤ stack_limit →
  isFocused this && negb (strictEq sequence (__lastChildSequence__ this)) = true →
  callback stack_limit cb event sequence w =
    Returned tt
      (mkWorld (notifyHeap (handledArg sequence) l (heap w))
               (trace w ++ notifications (handledArg sequence) l
                  ++ [HandlerCalled cb event sequence])).
Proof.
  intros Hr Ha Hlen Hgate. unfold callback, bind, getScope at 1.
  rewrite Hr, Hgate.
  rewrite (notify_parent_ancestors _ (heap w) this l) by done.
  unfold emit. simpl. by rewrite <- app_assoc.
Qed.

(** C1. When the gate of an instance fires a sequence (the instance counts
    as focused and the sequence is not strictly equal to its
    [__lastChildSequence__]), every ancestor, from the nearest to the root,
    is notified and from then on holds the sequence in its
    [__lastChildSequence__] ([null] for a sequence left undefined), and only
    after the last of them is the handler called with the event and the
    sequence; an ancestor changes in that field only, and no other instance
    changes. When the sequence is strictly equal to [__lastChildSequence__],
    the callback returns with the world as it was. *)
Theorem callback_notifies_then_handles (stack_limit : nat) (cb : Callback)
    (event : option KeyboardEvent) (sequence : option string)
    (w : World) (this : HotKeys) :
  heap w !! cb_this cb = Some this →
  (∀ l, ancestors (heap w) this l →
        length l ≤ stack_limit →
        isFocused this = true →
        strictEq sequence (__lastChildSequence__ this) = false →
        let stored := match sequence with
                      | Some s => Some (HKString s)
                      | None => None
                      end in
        ∃ w', callback stack_limit cb event sequence w = Returned tt w'
              ∧ trace w' = trace w ++ map (λ q, Notified q stored) l
                             ++ [HandlerCalled cb event sequence]
              ∧ (∀ q, q ∈ l →
                      __lastChildSequence__ <$> heap w' !! q = Some stored)
              ∧ (∀ q a, q ∈ l → heap w !! q = Some a →
                        heap w' !! q = Some (set_lastChildSequence stored a))
              ∧ (∀ q, q ∉ l → heap w' !! q = heap w !! q))
  ∧ (strictEq sequence (__lastChildSequence__ this) = true →
       callback stack_limit cb event sequence w = Returned tt w).
Proof.
  intros Hr. split.
  - intros l Ha Hlen Hfocus Hneq stored.
    assert (Hstored : handledArg sequence = stored) by (by destruct sequence).
    eexists. split.
    + apply (callback_fires _ _ _ _ _ this l); try done.
      by rewrite Hfocus, Hneq.
    + cbn [heap trace]. rewrite Hstored. split; [done|]. split; [|split].
      * intros q Hq. apply notifyHeap_stored; [done|].
        by apply (ancestors_member_lookup _ this l).
      * intros q a Hq Hqa. by rewrite notifyHeap_lookup_in, Hqa.
      * intros q Hq. by apply notifyHeap_lookup_notin.
  - intros Heq. apply (callback_suppressed _ _ _ _ _ this); [done|].
    rewrite Heq. apply andb_false_r.
Qed.

(** In the sample tree the child last heard of "esc" and the root of
    "ctrl+s": firing "ctrl+k" in the child makes the root hold "ctrl+k" and
    then calls the handler; firing "esc" does nothing. *)
Lemma callback_notifies_then_handles_witness :
  __lastChildSequence__ <$> heap sample_world !! 0
    = Some (Some (HKString "ctrl+s"))
  ∧ (∃ w', callback 8 (mkCallback 1 11) (Some 7) (Some "ctrl+k"%string) sample_world
             = Returned tt w'
           ∧ trace w' = [Notified 0 (Some (HKString "ctrl+k"));
                         HandlerCalled (mkCallback 1 11) (Some 7)
                           (Some "ctrl+k"%string)]
           ∧ __lastChildSequence__ <$> heap w' !! 0
             = Some (Some (HKString "ctrl+k"))
           ∧ heap w' !! 2 = Some sample_leaf)
  ∧ callback 8 (mkCallback 1 12) (Some 7) (Some "esc"%string) sample_world
      = Returned tt sample_world.
Proof.
  split; [vm_compute; reflexivity|]. split.
  - destruct (callback_notifies_then_handles 8 (mkCallback 1 11) (Some 7)
                (Some "ctrl+k"%string) sample_world sample_child)
      as [Hfire _]; [vm_compute; reflexivity|].
    destruct (Hfire [0]) as (w' & Hrun & Htrace & Hstored & _ & Hout).
    + apply (chain_root _ _ sample_root); vm_compute; reflexivity.
    + simpl. lia.
    + reflexivity.
    + reflexivity.
    + exists w'. split; [exact Hrun|]. split; [exact Htrace|]. split.
      * apply Hstored. apply elem_of_cons; by left.
      * rewrite Hout; [vm_compute; reflexivity|].
        intros Hin2. apply elem_of_cons in Hin2 as [Heq|Hin2];
          [discriminate | by apply elem_of_nil in Hin2].
  - destruct (callback_notifies_then_handles 8 (mkCallback 1 12) (Some 7)
                (Some "esc"%string) sample_world sample_child)
      as [_ Hquiet]; [vm_compute; reflexivity|].
    apply Hquiet. reflexivity.
Defined.

(** ** Synchronising the matcher *)

Lemma forEach_emit {A} (g : A → Effect) (l : list A) w :
  forEach l (λ x, emit (g x)) w = Returned tt (mkWorld (heap w) (trace w ++ map g l)).
Proof.
  revert w. induction l as [|x l IH]; intros w; simpl.
  - unfold ret. rewrite app_nil_r. by destruct w.
  - unfold bind, emit at 1. rewrite IH. simpl. by rewrite <- app_assoc.
Qed.

Lemma map_flat_map {A B C} (g : B → C) (f : A → list B) (l : list A) :
  map g (flat_map f l) = flat_map (λ x, map g (f x)) l.
Proof.
  induction l as [|x l IH]; simpl; [done|]. by rewrite map_app, IH.
Qed.

Lemma bindCall_sequenceHandlerFor r handler descriptor :
  MousetrapBind r
    (sh_sequence (sequenceHandlerFor r handler descriptor))
    (sh_callback (sequenceHandlerFor r handler descriptor))
    (sh_action (sequenceHandlerFor r handler descriptor))
  = bindCall r handler descriptor.
Proof. by destruct descriptor as [[|]|]. Qed.

Lemma syncHandlersToMousetrap_calls r w this :
  heap w !! r = Some this →
  syncHandlersToMousetrap r w =
    Returned tt (mkWorld (heap w) (trace w ++ syncCalls r this)).
Proof.
  intros Hr. unfold syncHandlersToMousetrap, bind, getScope, syncCalls.
  rewrite Hr. destruct (__mousetrap__ this) as [t|].
  - unfold emit at 1. rewrite forEach_emit. cbn [heap trace].
    rewrite <- app_assoc. cbn [app]. do 4 f_equal.
    rewrite map_flat_map. apply flat_map_ext. intros [actionName handler].
    rewrite map_map. apply map_ext. intros d.
    apply bindCall_sequenceHandlerFor.
  - unfold ret. rewrite app_nil_r. by destruct w.
Qed.

(** The merged map is the fresh one after [updateMap], whatever it
    reported. *)
Lemma updateMap_result r w this :
  heap w !! r = Some this →
  ∃ b, updateMap r w =
         Returned b
           (mkWorld (<[r := set_hotKeyMap (Some (buildMap this)) this]> (heap w))
                    (trace w))
       ∧ b = hasChanged (Some (buildMap this)) (__hotKeyMap__ this).
Proof.
  intros Hr.
  destruct (decide (Some (buildMap this) = __hotKeyMap__ this)) as [Heq|Hne].
  - exists false. rewrite (updateMap_unchanged r w this Hr Heq). split.
    + f_equal. destruct w as [h t]. simpl in *. f_equal.
      symmetry. apply insert_id. rewrite Hr. f_equal.
      destruct this. simpl in *. by rewrite <- Heq.
    + unfold hasChanged, isEqual, isEqual_keyMap.
      by rewrite bool_decide_eq_true_2.
  - exists true. rewrite (updateMap_changed r w this Hr Hne). split; [done|].
    unfold hasChanged, isEqual, isEqual_keyMap.
    by rewrite bool_decide_eq_false_2.
Qed.

(** A rebind: the ancestors are told that nothing is handled, then the
    matcher is reset and bound anew from the fresh merged map. *)
Lemma updateHotKeys_rebinds stack_limit r force prev w this l :
  heap w !! r = Some this →
  ancestors (heap w) this l →
  length l ≤ stack_limit →
  force || hasChanged (Some (buildMap this)) (__hotKeyMap__ this)
    || hasChanged (default [] (props_handlers this))
         (default (default [] (props_handlers this)) prev) = true →
  updateHotKeys stack_limit r force prev w =
    Returned tt
      (mkWorld
         (notifyHeap None l
            (<[r := set_hotKeyMap (Some (buildMap this)) this]> (heap w)))
         (trace w ++ notifications None l
            ++ syncCalls r (set_hotKeyMap (Some (buildMap this)) this))).
Proof.
  intros Hr Ha Hlen Htrigger.
  unfold updateHotKeys, bind, getScope at 1. rewrite Hr.
  destruct (updateMap_result r w this Hr) as (b & -> & ->).
  rewrite Htrigger.
  rewrite <- (alter_Some_insert _ _ (set_hotKeyMap (Some (buildMap this))) this Hr).
  rewrite (notify_parent_ancestors _ _ this l None _ eq_refl); simpl.
  - rewrite (syncHandlersToMousetrap_calls _ _
               (set_hotKeyMap (Some (buildMap this)) this)); simpl.
    + by rewrite <- app_assoc.
    + rewrite notifyHeap_lookup_notin by (by eapply ancestors_not_self).
      by rewrite lookup_alter_eq, Hr.
  - by apply ancestors_alter.
  - done.
Qed.

Lemma syncCalls_mounted r this t :
  __mousetrap__ this = Some t →
  syncCalls r (set_hotKeyMap (Some (buildMap this)) this) =
    MousetrapReset r ::
    flat_map (λ '(actionName, handler),
                map (bindCall r handler)
                    (sequencesFromKeyMap (Some (buildMap this)) actionName))
             (default [] (props_handlers this)).
Proof. intros Ht. unfold syncCalls. simpl. by rewrite Ht. Qed.

(** Mounting creates the matcher, then rebinds. *)
Lemma componentDidMount_runs stack_limit r w this l :
  heap w !! r = Some this →
  ancestors (heap w) this l →
  length l ≤ stack_limit →
  componentDidMount stack_limit r w =
    Returned tt
      (mkWorld
         (notifyHeap None l
            (<[r := set_hotKeyMap (Some (buildMap this))
                      (set_mousetrap (Some (bindTarget r this)) this)]> (heap w)))
         (trace w ++ [MousetrapNew r (bindTarget r this)]
            ++ notifications None l
            ++ MousetrapReset r ::
               flat_map (λ '(actionName, handler),
                           map (bindCall r handler)
                               (sequencesFromKeyMap (Some (buildMap this)) actionName))
                        (default [] (props_handlers this)))).
Proof.
  intros Hr Ha Hlen.
  unfold componentDidMount, bind, getScope at 1. rewrite Hr.
  unfold assign at 1, emit at 1. cbn [heap trace].
  set (this1 := set_mousetrap (Some (bindTarget r this)) this).
  rewrite (updateHotKeys_rebinds _ _ _ _ _ this1 l); cbn [heap trace].
  - rewrite (syncCalls_mounted r this1 (bindTarget r this)) by done.
    rewrite (alter_Some_insert _ _ _ this Hr), insert_insert_eq.
    by rewrite <- app_assoc.
  - by rewrite lookup_alter_eq, Hr.
  - apply ancestors_alter; done.
  - done.
  - done.
Qed.

(** On mount, and on an update that [updateHotKeys] takes for a change of
    the merged map or of the handlers, a mounted instance resets its matcher
    and then makes, for every (action name, handler) pair of [handlers] in
    order, one [bind] call per sequence descriptor the action name resolves
    to in the fresh merged map; each call carries the focus-gate callback of
    that handler, and the [action] of a [{sequence, action}] descriptor is
    passed on as it is. *)
Lemma rebind_resets_then_binds_each_sequence (stack_limit : nat)
    (r : ScopeRef) (w : World) (this : HotKeys) (l : list ScopeRef) :
  heap w !! r = Some this →
  ancestors (heap w) this l →
  length l ≤ stack_limit →
  let handlers := default [] (props_handlers this) in
  let binds :=
    flat_map (λ '(actionName, handler),
                map (bindCall r handler)
                    (sequencesFromKeyMap (Some (buildMap this)) actionName))
             handlers in
  (∃ w', componentDidMount stack_limit r w = Returned tt w'
         ∧ trace w' = trace w ++ [MousetrapNew r (bindTarget r this)]
                        ++ notifications None l ++ MousetrapReset r :: binds)
  ∧ (∀ prev,
       is_Some (__mousetrap__ this) →
       hasChanged (Some (buildMap this)) (__hotKeyMap__ this)
         || hasChanged handlers (default handlers prev) = true →
       ∃ w', componentDidUpdate stack_limit r prev w = Returned tt w'
             ∧ trace w' = trace w ++ notifications None l
                            ++ MousetrapReset r :: binds).
Proof.
  intros Hr Ha Hlen handlers binds. split.
  - eexists. split; [by apply (componentDidMount_runs _ _ _ this l)|done].
  - intros prev [t Ht] Htrigger. eexists. split.
    + unfold componentDidUpdate.
      by apply (updateHotKeys_rebinds _ _ _ _ _ this l).
    + cbn [trace]. by rewrite (syncCalls_mounted r this t).
Qed.

(** Mounting the child of the sample tree, and updating it after one of its
    handlers was replaced. *)
Lemma rebind_resets_then_binds_each_sequence_sample :
  (∃ w', componentDidMount 8 1 sample_world = Returned tt w'
         ∧ trace w' =
             [MousetrapNew 1 (OwnNode 1); Notified 0 None; MousetrapReset 1;
              MousetrapBind 1 (Some "ctrl+s"%string) (mkCallback 1 11) None;
              MousetrapBind 1 (Some "esc"%string) (mkCallback 1 12) None;
              MousetrapBind 1 (Some "q"%string) (mkCallback 1 12) (Some "keyup"%string)])
  ∧ (∃ w', componentDidUpdate 8 1 (Some [("save"%string, 99)]) sample_world
             = Returned tt w'
           ∧ trace w' =
               [Notified 0 None; MousetrapReset 1;
                MousetrapBind 1 (Some "ctrl+s"%string) (mkCallback 1 11) None;
                MousetrapBind 1 (Some "esc"%string) (mkCallback 1 12) None;
                MousetrapBind 1 (Some "q"%string) (mkCallback 1 12) (Some "keyup"%string)]).
Proof.
  destruct (rebind_resets_then_binds_each_sequence 8 1 sample_world
              sample_child [0]) as [Hmount Hupdate].
  - vm_compute; reflexivity.
  - apply (chain_root _ _ sample_root); vm_compute; reflexivity.
  - simpl. lia.
  - split.
    + destruct Hmount as (w' & Hrun & Htrace). exists w'.
      split; [exact Hrun|]. rewrite Htrace. vm_compute. reflexivity.
    + destruct (Hupdate (Some [("save"%string, 99)])) as (w' & Hrun & Htrace).
      * exists (OwnNode 1). reflexivity.
      * vm_compute. reflexivity.
      * exists w'. split; [exact Hrun|]. rewrite Htrace. vm_compute. reflexivity.
Defined.

(** C6, where the source falls short of it. When the previous props carried
    no [handlers] at all, [updateHotKeys] takes the current handlers for the
    previous ones: if the merged map is unchanged, the update resets nothing
    and binds nothing, whatever handlers the instance has been given. *)
Theorem componentDidUpdate_without_previous_handlers (stack_limit : nat)
    (r : ScopeRef) (w : World) (this : HotKeys) :
  heap w !! r = Some this →
  Some (buildMap this) = __hotKeyMap__ this →
  componentDidUpdate stack_limit r None w = Returned tt w.
Proof.
  intros Hr Hcache.
  unfold componentDidUpdate, updateHotKeys, bind, getScope at 1. rewrite Hr.
  rewrite (updateMap_unchanged r w this Hr Hcache). simpl.
  unfold hasChanged, isEqual, isEqual_handlers.
  by rewrite bool_decide_eq_true_2.
Qed.

(** The child of the sample tree is mounted and has two handlers. Updated
    from props without [handlers], it leaves the matcher alone; updated from
    props whose [handlers] were empty, it rebinds. *)
Lemma componentDidUpdate_without_previous_handlers_witness :
  props_handlers sample_child = Some [("save"%string, 11); ("close"%string, 12)]
  ∧ __mousetrap__ sample_child = Some (OwnNode 1)
  ∧ componentDidUpdate 8 1 None sample_world = Returned tt sample_world
  ∧ trace (world_of (componentDidUpdate 8 1 (Some []) sample_world))
    = [Notified 0 None; MousetrapReset 1;
       MousetrapBind 1 (Some "ctrl+s"%string) (mkCallback 1 11) None;
       MousetrapBind 1 (Some "esc"%string) (mkCallback 1 12) None;
       MousetrapBind 1 (Some "q"%string) (mkCallback 1 12) (Some "keyup"%string)].
Proof.
  split; [reflexivity|]. split; [reflexivity|]. split.
  - apply (componentDidUpdate_without_previous_handlers 8 1 sample_world
             sample_child); vm_compute; reflexivity.
  - vm_compute. reflexivity.
Defined.

(** ** Losing focus and unmounting *)

Lemma onBlur_runs stack_limit r w this l :
  heap w !! r = Some this →
  ancestors (heap w) this l →
  length l ≤ stack_limit →
  onBlur stack_limit r w =
    Returned tt
      (mkWorld (notifyHeap None l (<[r := set_isFocused false this]> (heap w)))
               (trace w
                  ++ match props_onBlur this with
                     | Some f => [OnBlurCalled r f]
                     | None => []
                     end
                  ++ notifications None l)).
Proof.
  intros Hr Ha Hlen. unfold onBlur, bind, getScope at 1. rewrite Hr.
  unfold assign at 1. cbn [heap trace].
  rewrite (alter_Some_insert _ _ _ this Hr).
  assert (Ha' : ancestors (<[r := set_isFocused false this]> (heap w)) this l).
  { rewrite <- (alter_Some_insert _ _ (set_isFocused false) this Hr).
    by apply ancestors_alter. }
  destruct (props_onBlur this) as [f|]; simpl.
  - rewrite (notify_parent_ancestors _ _ this l None _ eq_refl) by done.
    simpl. by rewrite <- app_assoc.
  - by rewrite (notify_parent_ancestors _ _ this l None _ eq_refl) by done.
Qed.

Lemma componentWillUnmount_runs stack_limit r w this l :
  heap w !! r = Some this →
  ancestors (heap w) this l →
  length l ≤ stack_limit →
  componentWillUnmount stack_limit r w =
    Returned tt
      (mkWorld (notifyHeap None l (heap w))
               (trace w ++ notifications None l
                  ++ match __mousetrap__ this with
                     | Some _ => [MousetrapReset r]
                     | None => []
                     end)).
Proof.
  intros Hr Ha Hlen. unfold componentWillUnmount, bind, getScope at 1.
  rewrite Hr.
  rewrite (notify_parent_ancestors _ _ this l None _ eq_refl) by done.
  destruct (__mousetrap__ this) as [t|]; simpl.
  - unfold emit. simpl. by rewrite <- app_assoc.
  - unfold ret. by rewrite app_nil_r.
Qed.

(** C7. On blur an instance sets [__isFocused__] to [false] and every
    ancestor, from the nearest to the root, is notified of [null] and from
    then on holds [null] in its [__lastChildSequence__]. On unmount the same
    notifications are made first, with the same result, and the matcher of a
    mounted instance is reset after the last of them. *)
Theorem blur_and_unmount_clear_ancestors (stack_limit : nat) (r : ScopeRef)
    (w : World) (this : HotKeys) (l : list ScopeRef) :
  heap w !! r = Some this →
  ancestors (heap w) this l →
  length l ≤ stack_limit →
  (∃ w', onBlur stack_limit r w = Returned tt w'
         ∧ __isFocused__ <$> heap w' !! r = Some false
         ∧ (∀ q, q ∈ l → __lastChildSequence__ <$> heap w' !! q = Some None)
         ∧ heap w' !! r = Some (set_isFocused false this)
         ∧ (∀ q a, q ∈ l → heap w !! q = Some a →
                   heap w' !! q = Some (set_lastChildSequence None a))
         ∧ ∃ propCall, trace w' = trace w ++ propCall
                                    ++ map (λ q, Notified q None) l
                       ∧ propCall = match props_onBlur this with
                                    | Some f => [OnBlurCalled r f]
                                    | None => []
                                    end)
  ∧ (∃ w', componentWillUnmount stack_limit r w = Returned tt w'
           ∧ (∀ q, q ∈ l → __lastChildSequence__ <$> heap w' !! q = Some None)
           ∧ (∀ q a, q ∈ l → heap w !! q = Some a →
                     heap w' !! q = Some (set_lastChildSequence None a))
           ∧ trace w' = trace w ++ map (λ q, Notified q None) l
                          ++ match __mousetrap__ this with
                             | Some _ => [MousetrapReset r]
                             | None => []
                             end).
Proof.
  intros Hr Ha Hlen.
  pose proof (ancestors_not_self _ _ _ _ Hr Ha) as Hself. split.
  - eexists. split; [by apply (onBlur_runs _ _ _ this l)|]. cbn [heap trace].
    split; [|split; [|split; [|split]]].
    + rewrite notifyHeap_lookup_notin by done. by rewrite lookup_insert_eq.
    + intros q Hq. apply notifyHeap_stored; [done|].
      rewrite lookup_insert_ne by (intros ->; done).
      by apply (ancestors_member_lookup _ this l).
    + rewrite notifyHeap_lookup_notin by done. apply lookup_insert_eq.
    + intros q a Hq Hqa. rewrite notifyHeap_lookup_in by done.
      rewrite lookup_insert_ne by (intros ->; done). by rewrite Hqa.
    + eexists. split; reflexivity.
  - eexists. split; [by apply (componentWillUnmount_runs _ _ _ this l)|].
    cbn [heap trace]. split; [|split; [|done]].
    + intros q Hq. apply notifyHeap_stored; [done|].
      by apply (ancestors_member_lookup _ this l).
    + intros q a Hq Hqa. by rewrite notifyHeap_lookup_in, Hqa.
Qed.

(** The leaf of the sample tree, which has the focus, loses it, then
    unmounts; its parent held "esc" and the root "ctrl+s" before. *)
Lemma blur_and_unmount_clear_ancestors_witness :
  (__isFocused__ <$> heap sample_world !! 2 = Some true
   ∧ __lastChildSequence__ <$> heap sample_world !! 1 = Some (Some (HKString "esc"))
   ∧ __lastChildSequence__ <$> heap sample_world !! 0
     = Some (Some (HKString "ctrl+s")))
  ∧ (∃ w', onBlur 8 2 sample_world = Returned tt w'
           ∧ __isFocused__ <$> heap w' !! 2 = Some false
           ∧ __lastChildSequence__ <$> heap w' !! 1 = Some None
           ∧ __lastChildSequence__ <$> heap w' !! 0 = Some None
           ∧ trace w' = [Notified 1 None; Notified 0 None])
  ∧ (∃ w', componentWillUnmount 8 2 sample_world = Returned tt w'
           ∧ __lastChildSequence__ <$> heap w' !! 1 = Some None
           ∧ __lastChildSequence__ <$> heap w' !! 0 = Some None
           ∧ trace w' = [Notified 1 None; Notified 0 None; MousetrapReset 2]).
Proof.
  assert (Hc : chain (heap sample_world) 1 [1; 0]).
  { apply (chain_parent _ _ sample_child 0); [vm_compute; reflexivity|reflexivity|].
    apply (chain_root _ _ sample_root); vm_compute; reflexivity. }
  assert (H1 : 1 ∈ [1; 0]) by (apply elem_of_cons; by left).
  assert (H0 : 0 ∈ [1; 0]).
  { apply elem_of_cons; right. apply elem_of_cons; by left. }
  destruct (blur_and_unmount_clear_ancestors 8 2 sample_world sample_leaf [1; 0])
    as [Hblur Hunmount];
    [vm_compute; reflexivity | exact Hc | simpl; lia |].
  split; [repeat split; vm_compute; reflexivity|]. split.
  - destruct Hblur as (w' & Hrun & Hown & Hanc & _ & _ & propCall & Htrace & ->).
    exists w'. split; [exact Hrun|]. split; [exact Hown|].
    split; [by apply Hanc|]. split; [by apply Hanc|]. exact Htrace.
  - destruct Hunmount as (w' & Hrun & Hanc & _ & Htrace).
    exists w'. split; [exact Hrun|].
    split; [by apply Hanc|]. split; [by apply Hanc|]. exact Htrace.
Defined.

(** ** Rebinding clears the ancestors *)

(** C10. Whenever [updateHotKeys] rebinds (it is forced, as on mount, or the
    merged map changed, or the handlers differ from the previous ones), every
    ancestor, from the nearest to the root, is first notified of [null] and
    from then on holds [null] in its [__lastChildSequence__]; the matcher
    calls of the synchronisation come after the last notification. *)
Theorem rebind_clears_ancestors_first (stack_limit : nat) (r : ScopeRef)
    (force : bool) (prev : option Handlers) (w : World) (this : HotKeys)
    (l : list ScopeRef) :
  heap w !! r = Some this →
  ancestors (heap w) this l →
  length l ≤ stack_limit →
  force || hasChanged (Some (buildMap this)) (__hotKeyMap__ this)
    || hasChanged (default [] (props_handlers this))
         (default (default [] (props_handlers this)) prev) = true →
  ∃ w', updateHotKeys stack_limit r force prev w = Returned tt w'
        ∧ (∀ q, q ∈ l → __lastChildSequence__ <$> heap w' !! q = Some None)
        ∧ (∀ q a, q ∈ l → heap w !! q = Some a →
                  heap w' !! q = Some (set_lastChildSequence None a))
        ∧ trace w' = trace w ++ map (λ q, Notified q None) l
                       ++ syncCalls r (set_hotKeyMap (Some (buildMap this)) this).
Proof.
  intros Hr Ha Hlen Htrigger.
  pose proof (ancestors_not_self _ _ _ _ Hr Ha) as Hself.
  eexists. split; [by apply (updateHotKeys_rebinds _ _ _ _ _ this l)|].
  cbn [heap trace]. split; [|split; [|done]].
  - intros q Hq. apply notifyHeap_stored; [done|].
    rewrite lookup_insert_ne by (intros ->; done).
    by apply (ancestors_member_lookup _ this l).
  - intros q a Hq Hqa. rewrite notifyHeap_lookup_in by done.
    rewrite lookup_insert_ne by (intros ->; done). by rewrite Hqa.
Qed.

(** The leaf of the sample tree is given a new handler: its parent and the
    root, which held "esc" and "ctrl+s", hold [null] afterwards, and only
    then does the leaf rebind. *)
Lemma rebind_clears_ancestors_first_witness :
  (__lastChildSequence__ <$> heap sample_world !! 1 = Some (Some (HKString "esc"))
   ∧ __lastChildSequence__ <$> heap sample_world !! 0
     = Some (Some (HKString "ctrl+s")))
  ∧ ∃ w', updateHotKeys 8 2 false (Some []) sample_world = Returned tt w'
          ∧ __lastChildSequence__ <$> heap w' !! 1 = Some None
          ∧ __lastChildSequence__ <$> heap w' !! 0 = Some None
          ∧ trace w' = [Notified 1 None; Notified 0 None; MousetrapReset 2;
                        MousetrapBind 2 (Some "ctrl+s"%string) (mkCallback 2 13) None].
Proof.
  assert (Hc : chain (heap sample_world) 1 [1; 0]).
  { apply (chain_parent _ _ sample_child 0); [vm_compute; reflexivity|reflexivity|].
    apply (chain_root _ _ sample_root); vm_compute; reflexivity. }
  assert (H1 : 1 ∈ [1; 0]) by (apply elem_of_cons; by left).
  assert (H0 : 0 ∈ [1; 0]).
  { apply elem_of_cons; right. apply elem_of_cons; by left. }
  split; [split; vm_compute; reflexivity|].
  destruct (rebind_clears_ancestors_first 8 2 false (Some []) sample_world
              sample_leaf [1; 0]) as (w' & Hrun & Hanc & _ & Htrace);
    [vm_compute; reflexivity | exact Hc | simpl; lia | vm_compute; reflexivity |].
  exists w'. split; [exact Hrun|].
  split; [by apply Hanc|]. split; [by apply Hanc|].
  rewrite Htrace. vm_compute. reflexivity.
Defined.

(** ** The bind target *)

(** C8, where the specified validation and the source part. The child of
    the sample tree is given neither [attach] nor [attachRef], and a lone
    instance is given both: [componentDidMount] returns for each, with the
    matcher created on the instance's own node for the first and on [attach]
    for the second. *)
Lemma componentDidMount_accepts_neither_and_both :
  (props_attach sample_child = None ∧ props_attachRef sample_child = None
   ∧ ¬ rejects (componentDidMount 8 1 sample_world)
   ∧ __mousetrap__ <$> heap (world_of (componentDidMount 8 1 sample_world)) !! 1
       = Some (Some (OwnNode 1)))
  ∧ (props_attach sample_both = Some (Some Window)
     ∧ props_attachRef sample_both = Some (Some (Element 5))
     ∧ ¬ rejects (componentDidMount 8 0 (mkWorld {[ 0 := sample_both ]} []))
     ∧ __mousetrap__
         <$> heap (world_of (componentDidMount 8 0 (mkWorld {[ 0 := sample_both ]} [])))
               !! 0
         = Some (Some (Attached Window))).
Proof.
  split.
  - split; [reflexivity|]. split; [reflexivity|]. split.
    + intros (e & w' & Hthrown). vm_compute in Hthrown. discriminate.
    + vm_compute. reflexivity.
  - split; [reflexivity|]. split; [reflexivity|]. split.
    + intros (e & w' & Hthrown). vm_compute in Hthrown. discriminate.
    + vm_compute. reflexivity.
Qed.

(** C8, amended. [componentDidMount] validates neither prop and rejects no
    combination of them: it returns, having created the matcher on
    [props.attach] when that prop is present and not null (whether or not
    [attachRef] is given as well), else on [attachRef.current] when
    [attach] is absent and the ref holds an element, else on the instance's
    own focus-trap node. *)
Theorem componentDidMount_chooses_target (stack_limit : nat) (r : ScopeRef)
    (w : World) (this : HotKeys) (l : list ScopeRef) :
  heap w !! r = Some this →
  ancestors (heap w) this l →
  length l ≤ stack_limit →
  let target :=
    match props_attach this, props_attachRef this with
    | Some (Some el), _ => Attached el
    | None, Some (Some el) => Attached el
    | _, _ => OwnNode r
    end in
  ∃ w', componentDidMount stack_limit r w = Returned tt w'
        ∧ ¬ rejects (componentDidMount stack_limit r w)
        ∧ __mousetrap__ <$> heap w' !! r = Some (Some target)
        ∧ MousetrapNew r target ∈ trace w'.
Proof.
  intros Hr Ha Hlen target.
  pose proof (ancestors_not_self _ _ _ _ Hr Ha) as Hself.
  assert (Ht : bindTarget r this = target).
  { unfold bindTarget, target.
    by destruct (props_attach this) as [[el|]|],
                (props_attachRef this) as [[el'|]|]. }
  rewrite <- Ht.
  rewrite (componentDidMount_runs _ _ _ this l) by done.
  eexists. split; [reflexivity|]. cbn [heap trace]. split; [|split].
  - intros (e & w' & Hthrown). discriminate.
  - rewrite notifyHeap_lookup_notin by done. by rewrite lookup_insert_eq.
  - rewrite elem_of_app. right. apply elem_of_cons. by left.
Qed.

(** The leaf of the sample tree has an [attachRef] whose [current] is
    [null]: the matcher is created on the leaf's own node. *)
Lemma componentDidMount_chooses_target_witness :
  ∃ w', componentDidMount 8 2 sample_world = Returned tt w'
        ∧ ¬ rejects (componentDidMount 8 2 sample_world)
        ∧ __mousetrap__ <$> heap w' !! 2 = Some (Some (OwnNode 2))
        ∧ MousetrapNew 2 (OwnNode 2) ∈ trace w'.
Proof.
  apply (componentDidMount_chooses_target 8 2 sample_world sample_leaf [1; 0]).
  - vm_compute; reflexivity.
  - apply (chain_parent _ _ sample_child 0); [vm_compute; reflexivity|reflexivity|].
    apply (chain_root _ _ sample_root); vm_compute; reflexivity.
  - simpl; lia.
Defined.

(** ** Reasoning about methods step by step *)

Section Respects.

Context (P : World → Prop) (R : World → World → Prop).
Hypothesis R_refl : ∀ w, R w w.
Hypothesis R_trans : ∀ w1 w2 w3, R w1 w2 → R w2 w3 → R w1 w3.
Hypothesis P_stable : ∀ w w', P w → R w w' → P w'.

Lemma respects_ret {A} (a : A) : respects P R (ret a).
Proof using R_refl. intros w _. apply R_refl. Qed.

Lemma respects_throw {A} e : respects P R (@throw A e).
Proof using R_refl. intros w _. apply R_refl. Qed.

Lemma respects_bind {A B} (m : M A) (k : A → M B) :
  respects P R m → (∀ a, respects P R (k a)) → respects P R (bind m k).
Proof using R_trans P_stable.
  intros Hm Hk w Hw. unfold bind. specialize (Hm w Hw).
  destruct (m w) as [a w1|e w1] eqn:E; simpl in Hm; [|exact Hm].
  eapply R_trans; [exact Hm|]. apply Hk. by eapply P_stable.
Qed.

(** After [getScope r] the continuation knows that what it was given is the
    instance stored at [r] in a world where [P] holds. *)
Lemma respects_getScope_bind {B} r (k : HotKeys → M B) :
  (∀ this, (∃ w, P w ∧ heap w !! r = Some this) → respects P R (k this)) →
  respects P R (bind (getScope r) k).
Proof using R_refl.
  intros Hk w Hw. unfold bind, getScope.
  destruct (heap w !! r) as [this|] eqn:Hr; [|apply R_refl].
  apply Hk; [|done]. by exists w.
Qed.

Lemma respects_whenSome {A} (o : option A) (f : A → M unit) :
  (∀ a, o = Some a → respects P R (f a)) → respects P R (whenSome o f).
Proof using R_refl.
  intros Hf. destruct o; simpl; [by apply Hf | apply respects_ret].
Qed.

Lemma respects_forEach {A} (l : list A) (f : A → M unit) :
  (∀ a, respects P R (f a)) → respects P R (forEach l f).
Proof using R_refl R_trans P_stable.
  intros Hf. induction l as [|x l IH]; simpl.
  - apply respects_ret.
  - apply respects_bind; [apply Hf | intros _; exact IH].
Qed.

End Respects.

(** Splits a method into its steps. [Hrefl], [Htrans] and [Hstable] are the
    three facts about the relation; [tac] settles the assignments, the
    effects and the notifications. *)
Ltac respects_steps Hrefl Htrans Hstable tac :=
  repeat first
    [ progress tac
    | apply (respects_ret _ _ Hrefl)
    | apply (respects_throw _ _ Hrefl)
    | apply (respects_getScope_bind _ _ Hrefl); intros ? ?
    | apply (respects_bind _ _ Htrans Hstable); [|intros ?]
    | apply (respects_forEach _ _ Hrefl Htrans Hstable); intros ?
    | apply (respects_whenSome _ _ Hrefl); intros ? ?
    | match goal with
      | |- respects _ _ (if ?b then _ else _) => destruct b eqn:?
      | |- respects _ _ (match ?x with Some _ => _ | None => _ end) =>
          destruct x eqn:?
      end ].

(** ** What a call may change in other instances *)

Lemma ancestor_ext h h' r x :
  (∀ q, context_hotKeyParent <$> h' !! q = context_hotKeyParent <$> h !! q) →
  ancestor_of h r x → ancestor_of h' r x.
Proof.
  intros Hext Ha. induction Ha as [r this p Hr Hp|r this p q Hr Hp _ IH].
  - specialize (Hext r). rewrite Hr in Hext.
    destruct (h' !! r) as [this'|] eqn:E; [|discriminate].
    apply (ancestor_parent _ _ this'); [done|]. simpl in Hext. congruence.
  - specialize (Hext r). rewrite Hr in Hext.
    destruct (h' !! r) as [this'|] eqn:E; [|discriminate].
    apply (ancestor_further _ _ this' p); [done| |done]. simpl in Hext. congruence.
Qed.

Lemma notifyHeap_lookup_cases v l h q :
  notifyHeap v l h !! q = h !! q
  ∨ (q ∈ l ∧ notifyHeap v l h !! q = set_lastChildSequence v <$> h !! q).
Proof.
  destruct (decide (q ∈ l)) as [Hin|Hnotin].
  - right. split; [done|]. by apply notifyHeap_lookup_in.
  - left. by apply notifyHeap_lookup_notin.
Qed.

Lemma notifyHeap_parent v l h q :
  context_hotKeyParent <$> notifyHeap v l h !! q = context_hotKeyParent <$> h !! q.
Proof.
  destruct (notifyHeap_lookup_cases v l h q) as [->|[_ ->]]; [done|].
  by destruct (h !! q).
Qed.

Lemma notifyHeap_focused v l h q :
  props_focused <$> notifyHeap v l h !! q = props_focused <$> h !! q.
Proof.
  destruct (notifyHeap_lookup_cases v l h q) as [->|[_ ->]]; [done|].
  by destruct (h !! q).
Qed.

Lemma alter_parent (h : gmap ScopeRef HotKeys) f r q :
  (∀ s, context_hotKeyParent (f s) = context_hotKeyParent s) →
  context_hotKeyParent <$> alter f r h !! q = context_hotKeyParent <$> h !! q.
Proof.
  intros Hf. destruct (decide (r = q)) as [->|Hne].
  - rewrite lookup_alter_eq. destruct (h !! q); simpl; [by rewrite Hf|done].
  - by rewrite lookup_alter_ne.
Qed.

Lemma alter_focused (h : gmap ScopeRef HotKeys) f r q :
  (∀ s, props_focused (f s) = props_focused s) →
  props_focused <$> alter f r h !! q = props_focused <$> h !! q.
Proof.
  intros Hf. destruct (decide (r = q)) as [->|Hne].
  - rewrite lookup_alter_eq. destruct (h !! q); simpl; [by rewrite Hf|done].
  - by rewrite lookup_alter_ne.
Qed.

(** The instances a notification visits are its receiver and ancestors of
    its receiver. *)
Lemma childHandledSequence_rec_path depth r v w :
  ∃ l, world_of (childHandledSequence_rec depth r v w) =
         mkWorld (notifyHeap v l (heap w)) (trace w ++ notifications v l)
       ∧ ∀ x, x ∈ l → x = r ∨ ancestor_of (heap w) r x.
Proof.
  revert r w. induction depth as [|depth IH]; intros r w.
  { exists []. split; [|by intros x Hx; apply elem_of_nil in Hx].
    simpl. rewrite app_nil_r. by destruct w. }
  simpl. unfold bind, getScope.
  destruct (heap w !! r) as [this|] eqn:Hr.
  - simpl. destruct (context_hotKeyParent this) as [p|] eqn:Hp; simpl.
    + destruct (IH p (mkWorld (alter (set_lastChildSequence v) r (heap w))
                        (trace w ++ [Notified r v]))) as (l & Hl & Hpath).
      exists (r :: l). split.
      * rewrite Hl. simpl. by rewrite <- app_assoc.
      * intros x Hx. apply elem_of_cons in Hx as [->|Hx]; [by left|right].
        destruct (Hpath x Hx) as [->|Hanc].
        -- by apply (ancestor_parent _ _ this).
        -- apply (ancestor_further _ _ this p); [done|done|].
           eapply ancestor_ext; [|exact Hanc]. intros q. simpl.
           symmetry. by apply alter_parent.
    + exists [r]. split; [done|].
      intros x Hx. apply elem_of_cons in Hx as [->|Hx]; [by left|].
      by apply elem_of_nil in Hx.
  - exists []. split; [|by intros x Hx; apply elem_of_nil in Hx].
    simpl. rewrite app_nil_r. by destruct w.
Qed.

Lemma touches_refl r w : touches r w w.
Proof.
  split; [done|]. exists []. split; [by rewrite app_nil_r|]. intros; by left.
Qed.

Lemma touches_trans r w1 w2 w3 :
  touches r w1 w2 → touches r w2 w3 → touches r w1 w3.
Proof.
  intros (Hp12 & t12 & Ht12 & H12) (Hp23 & t23 & Ht23 & H23). split.
  - intros q. by rewrite Hp23, Hp12.
  - exists (t12 ++ t23). split; [by rewrite Ht23, Ht12, app_assoc|].
    intros r' Hne.
    destruct (H12 r' Hne) as [E12|(v1 & E12 & Hn1 & Ha1)],
             (H23 r' Hne) as [E23|(v2 & E23 & Hn2 & Ha2)].
    + left. by rewrite E23.
    + right. exists v2. rewrite E23, E12. split; [done|]. split.
      * apply elem_of_app. by right.
      * eapply ancestor_ext; [|exact Ha2]. intros q. by rewrite Hp12.
    + right. exists v1. rewrite E23. split; [done|]. split; [|done].
      apply elem_of_app. by left.
    + right. exists v2. rewrite E23, E12. split; [by destruct (heap w1 !! r')|].
      split; [|done]. apply elem_of_app. by right.
Qed.

Lemma parent_is_stable r parent w w' :
  parent_is r parent w → touches r w w' → parent_is r parent w'.
Proof. intros Hp (Hpp & _). unfold parent_is. by rewrite Hpp. Qed.

Lemma touches_assign r parent f :
  (∀ s, context_hotKeyParent (f s) = context_hotKeyParent s) →
  respects (parent_is r parent) (touches r) (assign r f).
Proof.
  intros Hf w _. simpl. split.
  - intros q. by apply alter_parent.
  - exists []. split; [by rewrite app_nil_r|].
    intros r' Hne. left. by apply lookup_alter_ne.
Qed.

Lemma touches_emit r parent e :
  respects (parent_is r parent) (touches r) (emit e).
Proof.
  intros w _. simpl. split; [done|]. exists [e]. split; [done|]. intros; by left.
Qed.

Lemma touches_notify stack_depth r q v w :
  q = r ∨ ancestor_of (heap w) r q →
  touches r w (world_of (childHandledSequence_rec stack_depth q v w)).
Proof.
  intros Hq.
  destruct (childHandledSequence_rec_path stack_depth q v w) as (l & -> & Hpath).
  split; simpl.
  - intros x. apply notifyHeap_parent.
  - exists (notifications v l). split; [done|]. intros r' Hne.
    destruct (notifyHeap_lookup_cases v l (heap w) r') as [E|[Hin E]]; [by left|].
    right. exists v. split; [done|]. split.
    + apply list_elem_of_fmap. by exists r'.
    + destruct (Hpath r' Hin) as [->|Hanc].
      * by destruct Hq as [->|Hq].
      * destruct Hq as [->|Hq]; [done|].
        clear -Hq Hanc. induction Hq as [r this p Hr Hp|r this p q Hr Hp _ IH].
        -- by apply (ancestor_further _ _ this p).
        -- apply (ancestor_further _ _ this p); [done|done|]. by apply IH.
Qed.

Lemma touches_notify_parent stack_limit r parent v :
  respects (parent_is r parent) (touches r)
    (whenSome parent (λ hotKeyParent,
       childHandledSequence stack_limit hotKeyParent v)).
Proof.
  intros w Hw. destruct parent as [p|]; simpl; [|apply touches_refl].
  apply touches_notify. right. unfold parent_is in Hw.
  destruct (heap w !! r) as [this|] eqn:Hr; [|discriminate].
  apply (ancestor_parent _ _ this); [done|]. simpl in Hw. congruence.
Qed.

Lemma touches_getScope_bind {B} r parent (k : HotKeys → M B) :
  (∀ this, context_hotKeyParent this = parent →
           respects (parent_is r parent) (touches r) (k this)) →
  respects (parent_is r parent) (touches r) (bind (getScope r) k).
Proof.
  intros Hk. apply (respects_getScope_bind _ _ (touches_refl r)).
  intros this (w & Hw & Hr). apply Hk.
  unfold parent_is in Hw. rewrite Hr in Hw. simpl in Hw. congruence.
Qed.

Ltac touches_step :=
  first
    [ apply touches_getScope_bind; intros ? ?
    | apply touches_assign; intros []; reflexivity
    | apply touches_emit
    | match goal with
      | Hpar : context_hotKeyParent ?this = _
        |- respects _ _ (whenSome (context_hotKeyParent ?this) _) =>
          rewrite Hpar; apply touches_notify_parent
      end
    | unfold updateMap, syncHandlersToMousetrap ].

Lemma updateHotKeys_touches stack_limit r parent force prev :
  respects (parent_is r parent) (touches r) (updateHotKeys stack_limit r force prev).
Proof.
  unfold updateHotKeys.
  respects_steps (touches_refl r) (touches_trans r) (parent_is_stable r parent)
    touches_step.
Qed.

(** Whatever call instance [r] receives, [touches r] relates the worlds
    before and after. *)
Lemma perform_touches stack_limit r parent c :
  respects (parent_is r parent) (touches r) (perform stack_limit r c).
Proof.
  pose proof (touches_refl r) as Hrefl.
  pose proof (touches_trans r) as Htrans.
  pose proof (parent_is_stable r parent) as Hstable.
  destruct c; simpl.
  - unfold componentWillMount. respects_steps Hrefl Htrans Hstable touches_step.
  - unfold componentDidMount. respects_steps Hrefl Htrans Hstable touches_step.
  - apply updateHotKeys_touches.
  - unfold componentWillUnmount.
    respects_steps Hrefl Htrans Hstable touches_step.
  - respects_steps Hrefl Htrans Hstable touches_step.
  - apply updateHotKeys_touches.
  - respects_steps Hrefl Htrans Hstable touches_step.
  - intros w _. apply touches_notify. by left.
  - unfold onFocus. respects_steps Hrefl Htrans Hstable touches_step.
  - unfold onBlur. respects_steps Hrefl Htrans Hstable touches_step.
  - unfold callback. simpl.
    respects_steps Hrefl Htrans Hstable touches_step.
Qed.

Lemma perform_missing stack_limit r c w :
  heap w !! r = None → world_of (perform stack_limit r c w) = w.
Proof.
  intros Hr.
  destruct c; simpl;
    unfold componentWillMount, componentDidMount, componentDidUpdate,
      componentWillUnmount, updateHotKeys, updateMap, syncHandlersToMousetrap,
      onFocus, onBlur, callback, childHandledSequence, bind, getScope;
    simpl; rewrite ?Hr; try reflexivity.
  destruct stack_limit; simpl; [reflexivity|].
  unfold bind, getScope. by rewrite Hr.
Qed.

(** C9. Whatever call an instance [r] receives, any other instance [r'] is
    still there afterwards with the same [__isFocused__], the same [keyMap]
    prop and the same [__hotKeyMap__]; it is either exactly as it was, or as
    it was but for a [__lastChildSequence__] stored by a notification that
    the trace of the call records, and then [r'] is an ancestor of [r]. *)
Theorem other_instances_change_only_by_notification (stack_limit : nat)
    (r : ScopeRef) (c : Call) (w : World) (r' : ScopeRef) (other : HotKeys) :
  r' ≠ r →
  heap w !! r' = Some other →
  ∃ other',
    heap (world_of (perform stack_limit r c w)) !! r' = Some other'
    ∧ __isFocused__ other' = __isFocused__ other
    ∧ props_keyMap other' = props_keyMap other
    ∧ __hotKeyMap__ other' = __hotKeyMap__ other
    ∧ (other' = other
       ∨ ∃ v t, other' = set_lastChildSequence v other
                ∧ trace (world_of (perform stack_limit r c w)) = trace w ++ t
                ∧ Notified r' v ∈ t
                ∧ ancestor_of (heap w) r r').
Proof.
  intros Hne Hother.
  destruct (heap w !! r) as [this|] eqn:Hr.
  - destruct (perform_touches stack_limit r (context_hotKeyParent this) c w)
      as (_ & t & Ht & Hframe).
    { unfold parent_is. by rewrite Hr. }
    destruct (Hframe r' Hne) as [E|(v & E & Hn & Ha)]; rewrite E, Hother.
    + exists other. repeat split; try done. by left.
    + exists (set_lastChildSequence v other). repeat split; try done.
      right. by exists v, t.
  - rewrite perform_missing by done. exists other. repeat split; try done.
    by left.
Qed.

(** The leaf of the sample tree loses focus: its parent only forgets the
    sequence it had stored. *)
Lemma other_instances_change_only_by_notification_witness :
  ∃ other',
    heap (world_of (perform 8 2 OnBlur sample_world)) !! 1 = Some other'
    ∧ __isFocused__ other' = __isFocused__ sample_child
    ∧ props_keyMap other' = props_keyMap sample_child
    ∧ __hotKeyMap__ other' = __hotKeyMap__ sample_child
    ∧ (other' = sample_child
       ∨ ∃ v t, other' = set_lastChildSequence v sample_child
                ∧ trace (world_of (perform 8 2 OnBlur sample_world))
                  = trace sample_world ++ t
                ∧ Notified 1 v ∈ t
                ∧ ancestor_of (heap sample_world) 2 1).
Proof.
  apply (other_instances_change_only_by_notification 8 2 OnBlur sample_world 1
           sample_child).
  - discriminate.
  - vm_compute; reflexivity.
Defined.

(** ** A scope forced out of focus *)

Lemma silent_refl r w : silent r w w.
Proof. split; [done|]. exists []. split; [by rewrite app_nil_r|constructor]. Qed.

Lemma silent_trans r w1 w2 w3 : silent r w1 w2 → silent r w2 w3 → silent r w1 w3.
Proof.
  intros (Hp12 & t12 & Ht12 & H12) (Hp23 & t23 & Ht23 & H23). split.
  - intros q. by rewrite Hp23, Hp12.
  - exists (t12 ++ t23). split; [by rewrite Ht23, Ht12, app_assoc|].
    by apply Forall_app.
Qed.

Lemma forced_unfocused_stable r w w' :
  forced_unfocused r w → silent r w w' → forced_unfocused r w'.
Proof. intros Hw (Hp & _). unfold forced_unfocused. by rewrite Hp. Qed.

Lemma silent_assign r q f :
  (∀ s, props_focused (f s) = props_focused s) →
  respects (forced_unfocused r) (silent r) (assign q f).
Proof.
  intros Hf w _. simpl. split.
  - intros x. by apply alter_focused.
  - exists []. split; [by rewrite app_nil_r|constructor].
Qed.

Lemma silent_emit r e :
  handlerCalledBy r e = false →
  respects (forced_unfocused r) (silent r) (emit e).
Proof.
  intros He w _. simpl. split; [done|]. exists [e]. split; [done|].
  by repeat constructor.
Qed.

Lemma silent_notify r stack_depth q v :
  respects (forced_unfocused r) (silent r)
    (childHandledSequence_rec stack_depth q v).
Proof.
  intros w _.
  destruct (childHandledSequence_rec_visits stack_depth q v w) as (l & ->).
  split; simpl.
  - intros x. apply notifyHeap_focused.
  - exists (notifications v l). split; [done|].
    apply Forall_fmap, Forall_true. done.
Qed.

Ltac silent_step :=
  first
    [ apply silent_assign; intros []; reflexivity
    | apply silent_emit; reflexivity
    | apply silent_notify
    | unfold updateMap, syncHandlersToMousetrap ].

(** The gate of the instance that is forced out of focus stays shut; the
    gate of any other instance calls handlers on its own account only. *)
Lemma callback_silent stack_limit r cb event sequence :
  respects (forced_unfocused r) (silent r)
    (callback stack_limit cb event sequence).
Proof.
  pose proof (silent_refl r) as Hrefl.
  pose proof (silent_trans r) as Htrans.
  pose proof (forced_unfocused_stable r) as Hstable.
  unfold callback. apply (respects_getScope_bind _ _ Hrefl).
  intros this (w & Hw & Hthis).
  destruct (decide (cb_this cb = r)) as [Heq|Hne].
  - unfold forced_unfocused in Hw. rewrite <- Heq, Hthis in Hw.
    injection Hw as Hfocused. unfold isFocused. rewrite Hfocused. simpl.
    apply (respects_ret _ _ Hrefl).
  - respects_steps Hrefl Htrans Hstable silent_step.
    apply silent_emit. simpl. by apply bool_decide_eq_false_2.
Qed.

Lemma perform_silent stack_limit r q c :
  respects (forced_unfocused r) (silent r) (perform stack_limit q c).
Proof.
  pose proof (silent_refl r) as Hrefl.
  pose proof (silent_trans r) as Htrans.
  pose proof (forced_unfocused_stable r) as Hstable.
  destruct c; simpl; try apply callback_silent; try apply silent_notify.
  - unfold componentWillMount. respects_steps Hrefl Htrans Hstable silent_step.
  - unfold componentDidMount. respects_steps Hrefl Htrans Hstable silent_step.
  - unfold componentDidUpdate. respects_steps Hrefl Htrans Hstable silent_step.
  - unfold componentWillUnmount.
    respects_steps Hrefl Htrans Hstable silent_step.
  - respects_steps Hrefl Htrans Hstable silent_step.
  - respects_steps Hrefl Htrans Hstable silent_step.
  - respects_steps Hrefl Htrans Hstable silent_step.
  - unfold onFocus. respects_steps Hrefl Htrans Hstable silent_step.
  - unfold onBlur. respects_steps Hrefl Htrans Hstable silent_step.
Qed.

Lemma after_cons stack_limit q c history w :
  after stack_limit ((q, c) :: history) w =
    after stack_limit history (world_of (perform stack_limit q c w)).
Proof. reflexivity. Qed.

Lemma after_silent stack_limit r history w :
  forced_unfocused r w → silent r w (after stack_limit history w).
Proof.
  revert w. induction history as [|[q c] history IH]; intros w Hw.
  - apply silent_refl.
  - rewrite after_cons.
    pose proof (perform_silent stack_limit r q c w Hw) as Hstep.
    eapply silent_trans; [exact Hstep|]. apply IH.
    by eapply forced_unfocused_stable.
Qed.

(** C2. Let the [focused] prop of an instance be [false]. Through any
    history of calls to any instances (focus and blur events, matcher
    callbacks of this instance and of others, lifecycle calls), no effect
    recorded is a handler called by a callback of this instance; afterwards
    the instance still does not count as focused, whatever [__isFocused__]
    has become, and each of its callbacks returns at once, the world
    untouched. *)
Theorem forced_unfocused_never_handles (stack_limit : nat) (r : ScopeRef)
    (w : World) (this : HotKeys) (history : list (ScopeRef * Call)) :
  heap w !! r = Some this →
  props_focused this = Some false →
  (∃ t, trace (after stack_limit history w) = trace w ++ t
        ∧ Forall (λ e, handlerCalledBy r e = false) t)
  ∧ (∃ this', heap (after stack_limit history w) !! r = Some this'
              ∧ props_focused this' = Some false
              ∧ isFocused this' = false)
  ∧ ∀ handler event sequence,
      callback stack_limit (mkCallback r handler) event sequence
        (after stack_limit history w)
      = Returned tt (after stack_limit history w).
Proof.
  intros Hr Hforced.
  assert (Hw : forced_unfocused r w).
  { unfold forced_unfocused. by rewrite Hr, <- Hforced. }
  pose proof (after_silent stack_limit r history w Hw) as Hsilent.
  pose proof (forced_unfocused_stable _ _ _ Hw Hsilent) as Hw'.
  destruct Hsilent as (_ & Htrace).
  unfold forced_unfocused in Hw'.
  destruct (heap (after stack_limit history w) !! r) as [this'|] eqn:Hr';
    [|discriminate].
  injection Hw' as Hforced'.
  assert (Hfocus : isFocused this' = false).
  { unfold isFocused. by rewrite Hforced'. }
  split; [exact Htrace|]. split; [by exists this'|].
  intros handler event sequence.
  apply (callback_suppressed _ _ _ _ _ this'); [done|]. by rewrite Hfocus.
Qed.

(** The leaf of the sample tree has [focused = false]: it gains focus and
    its callback for "ctrl+s" is fired twice, around a firing in its parent;
    only the parent's handler is called. *)
Lemma forced_unfocused_never_handles_witness :
  let history :=
    [(2, OnFocus);
     (2, MatcherCallback 13 (Some 7) (Some "ctrl+s"%string));
     (1, MatcherCallback 11 (Some 7) (Some "ctrl+s"%string));
     (2, OnBlur);
     (2, OnFocus);
     (2, MatcherCallback 13 (Some 8) (Some "ctrl+s"%string))] in
  (∃ t, trace (after 8 history sample_world) = trace sample_world ++ t
        ∧ Forall (λ e, handlerCalledBy 2 e = false) t)
  ∧ (∃ this', heap (after 8 history sample_world) !! 2 = Some this'
              ∧ props_focused this' = Some false
              ∧ isFocused this' = false)
  ∧ ∀ handler event sequence,
      callback 8 (mkCallback 2 handler) event sequence (after 8 history sample_world)
      = Returned tt (after 8 history sample_world).
Proof.
  intros history.
  apply (forced_unfocused_never_handles 8 2 sample_world sample_leaf history).
  - vm_compute; reflexivity.
  - reflexivity.
Defined.

(** ** Scenarios *)

(** [isEqual] does not look at the order of the keys of [handlers]. *)
Example hasChanged_ignores_key_order :
  hasChanged [("a"%string, 1); ("b"%string, 2)] [("b"%string, 2); ("a"%string, 1)]
    = false
  ∧ hasChanged [("a"%string, 1); ("b"%string, 2)] [("b"%string, 2); ("a"%string, 3)]
    = true.
Proof. split; vm_compute; reflexivity. Qed.

(** Root and child both listen to "a" and both are focused: the matcher
    reaches the child first, then the root; only the child's handler runs. *)
Example nearest_scope_wins :
  trace (after 8 [(1, MatcherCallback 11 (Some 7) (Some "a"%string));
                  (0, MatcherCallback 10 (Some 7) (Some "a"%string))]
           sample_world)
  = [Notified 0 (Some (HKString "a"));
     HandlerCalled (mkCallback 1 11) (Some 7) (Some "a"%string)].
Proof. vm_compute. reflexivity. Qed.

(** Once the child has lost focus, the same sequence reaches the root's
    handler again. *)
Example root_handles_after_child_blur :
  trace (after 8 [(1, MatcherCallback 11 (Some 7) (Some "a"%string));
                  (0, MatcherCallback 10 (Some 7) (Some "a"%string));
                  (1, OnBlur);
                  (0, MatcherCallback 10 (Some 8) (Some "a"%string))]
           sample_world)
  = [Notified 0 (Some (HKString "a"));
     HandlerCalled (mkCallback 1 11) (Some 7) (Some "a"%string);
     OnBlurCalled 1 21;
     Notified 0 None;
     HandlerCalled (mkCallback 0 10) (Some 8) (Some "a"%string)].
Proof. vm_compute. reflexivity. Qed.

(** A parent chain that does not fit the stack ends in a [RangeError]. *)
Example notification_overflows_short_stack :
  ∃ w', childHandledSequence 1 1 None sample_world = Thrown RangeError w'
        ∧ trace w' = [Notified 1 None].
Proof. eexists. split; vm_compute; reflexivity. Qed.

(** * Further properties of the source *)

Lemma buildMap_lookup (this : HotKeys) (actionName : string) :
  buildMap this !! actionName =
    match default ∅ (props_keyMap this) !! actionName with
    | Some own => Some own
    | None => default ∅ (context_hotKeyMap this) !! actionName
    end.
Proof.
  unfold buildMap. rewrite lookup_union.
  destruct (default ∅ (props_keyMap this) !! actionName),
           (default ∅ (context_hotKeyMap this) !! actionName); reflexivity.
Qed.

(** ** Props and context are read-only *)

Lemma same_config_refl w : same_config w w.
Proof. by intros q. Qed.

Lemma same_config_trans w1 w2 w3 :
  same_config w1 w2 → same_config w2 w3 → same_config w1 w3.
Proof. intros H12 H23 q. by rewrite H23, H12. Qed.

Lemma anywhere_stable (R : World → World → Prop) w w' :
  anywhere w → R w w' → anywhere w'.
Proof. done. Qed.

Lemma alter_config (h : gmap ScopeRef HotKeys) f r q :
  (∀ s, config (f s) = config s) →
  config <$> alter f r h !! q = config <$> h !! q.
Proof.
  intros Hf. destruct (decide (r = q)) as [->|Hne].
  - rewrite lookup_alter_eq. destruct (h !! q); simpl; [by rewrite Hf|done].
  - by rewrite lookup_alter_ne.
Qed.

Lemma notifyHeap_config v l h q :
  config <$> notifyHeap v l h !! q = config <$> h !! q.
Proof.
  destruct (notifyHeap_lookup_cases v l h q) as [->|[_ ->]]; [done|].
  by destruct (h !! q).
Qed.

Lemma same_config_assign q f :
  (∀ s, config (f s) = config s) →
  respects anywhere same_config (assign q f).
Proof. intros Hf w _ x. simpl. by apply alter_config. Qed.

Lemma same_config_emit e : respects anywhere same_config (emit e).
Proof. by intros w _ x. Qed.

Lemma same_config_notify stack_depth q v :
  respects anywhere same_config (childHandledSequence_rec stack_depth q v).
Proof.
  intros w _.
  destruct (childHandledSequence_rec_visits stack_depth q v w) as (l & ->).
  intros x. simpl. apply notifyHeap_config.
Qed.

Ltac same_config_step :=
  first
    [ apply same_config_assign; intros []; reflexivity
    | apply same_config_emit
    | apply same_config_notify
    | unfold updateMap, syncHandlersToMousetrap ].

Lemma perform_same_config stack_limit q c :
  respects anywhere same_config (perform stack_limit q c).
Proof.
  pose proof same_config_refl as Hrefl.
  pose proof same_config_trans as Htrans.
  pose proof (anywhere_stable same_config) as Hstable.
  destruct c; simpl; try apply same_config_notify.
  - unfold componentWillMount. respects_steps Hrefl Htrans Hstable same_config_step.
  - unfold componentDidMount. respects_steps Hrefl Htrans Hstable same_config_step.
  - unfold componentDidUpdate. respects_steps Hrefl Htrans Hstable same_config_step.
  - unfold componentWillUnmount.
    respects_steps Hrefl Htrans Hstable same_config_step.
  - respects_steps Hrefl Htrans Hstable same_config_step.
  - respects_steps Hrefl Htrans Hstable same_config_step.
  - respects_steps Hrefl Htrans Hstable same_config_step.
  - unfold onFocus. respects_steps Hrefl Htrans Hstable same_config_step.
  - unfold onBlur. respects_steps Hrefl Htrans Hstable same_config_step.
  - unfold callback. respects_steps Hrefl Htrans Hstable same_config_step.
Qed.

Lemma after_same_config stack_limit history w :
  same_config w (after stack_limit history w).
Proof.
  revert w. induction history as [|[r c] history IH]; intros w; [done|].
  rewrite after_cons. eapply same_config_trans; [|apply IH].
  by apply (perform_same_config stack_limit r c w).
Qed.

(** X1. Through any history of calls to any instances, no instance appears
    or vanishes, and every instance keeps the context and the props it had:
    the methods write instance fields only. *)
Theorem history_keeps_props_and_context (stack_limit : nat)
    (history : list (ScopeRef * Call)) (w : World) (q : ScopeRef) :
  config <$> heap (after stack_limit history w) !! q = config <$> heap w !! q.
Proof. apply after_same_config. Qed.

Lemma config_parent (a b : option HotKeys) :
  config <$> a = config <$> b →
  context_hotKeyParent <$> a = context_hotKeyParent <$> b.
Proof.
  destruct a as [a|], b as [b|]; simpl; try done.
  unfold config. intros H. congruence.
Qed.

Lemma config_focused (a b : option HotKeys) :
  config <$> a = config <$> b →
  props_focused <$> a = props_focused <$> b.
Proof.
  destruct a as [a|], b as [b|]; simpl; try done.
  unfold config. intros H. congruence.
Qed.

Lemma ancestors_same_config w w' this this' l :
  same_config w w' →
  context_hotKeyParent this' = context_hotKeyParent this →
  ancestors (heap w) this l → ancestors (heap w') this' l.
Proof.
  intros Hsame Hp. unfold ancestors. rewrite Hp.
  destruct (context_hotKeyParent this); [|done].
  apply chain_ext. intros q. apply config_parent, Hsame.
Qed.

(** X2. An instance whose [focused] prop is [true] counts as focused after
    any history of calls, blur events included: its callback, given a
    sequence that is not strictly equal to what the instance has stored by
    then, notifies the ancestors and calls the handler. *)
Theorem forced_focus_outlives_blur (stack_limit : nat) (r : ScopeRef)
    (w : World) (this : HotKeys) (l : list ScopeRef)
    (history : list (ScopeRef * Call)) (handler : FunctionId)
    (event : option KeyboardEvent) (sequence : option string) :
  heap w !! r = Some this →
  props_focused this = Some true →
  ancestors (heap w) this l →
  length l ≤ stack_limit →
  ∃ this',
    heap (after stack_limit history w) !! r = Some this'
    ∧ isFocused this' = true
    ∧ (strictEq sequence (__lastChildSequence__ this') = false →
       ∃ w',
         callback stack_limit (mkCallback r handler) event sequence
           (after stack_limit history w) = Returned tt w'
         ∧ trace w' = trace (after stack_limit history w)
                        ++ notifications (handledArg sequence) l
                        ++ [HandlerCalled (mkCallback r handler) event sequence]).
Proof.
  intros Hr Hforced Ha Hlen.
  pose proof (after_same_config stack_limit history w) as Hsame.
  pose proof (Hsame r) as Hcfg. rewrite Hr in Hcfg.
  destruct (heap (after stack_limit history w) !! r) as [this'|] eqn:Hr';
    [|discriminate].
  exists this'. split; [done|].
  assert (Hfoc : props_focused this' = Some true).
  { apply config_focused in Hcfg. simpl in Hcfg. congruence. }
  assert (Hpar : context_hotKeyParent this' = context_hotKeyParent this).
  { apply config_parent in Hcfg. simpl in Hcfg. congruence. }
  assert (Hfocus : isFocused this' = true) by (unfold isFocused; by rewrite Hfoc).
  split; [exact Hfocus|]. intros Hneq. eexists. split.
  - apply (callback_fires _ _ _ _ _ this' l); simpl; try done.
    + by apply (ancestors_same_config w _ this).
    + by rewrite Hfocus, Hneq.
  - done.
Qed.

(** The root of the forced sample never had focus and is blurred once
    more; its callback still runs the handler. *)
Lemma forced_focus_outlives_blur_witness :
  ∃ this',
    heap (after 8 [(0, OnBlur)] sample_forced_world) !! 0 = Some this'
    ∧ isFocused this' = true
    ∧ (strictEq (Some "ctrl+s"%string) (__lastChildSequence__ this') = false →
       ∃ w',
         callback 8 (mkCallback 0 30) (Some 7) (Some "ctrl+s"%string)
           (after 8 [(0, OnBlur)] sample_forced_world) = Returned tt w'
         ∧ trace w' = trace (after 8 [(0, OnBlur)] sample_forced_world)
                        ++ notifications (handledArg (Some "ctrl+s"%string)) []
                        ++ [HandlerCalled (mkCallback 0 30) (Some 7)
                              (Some "ctrl+s"%string)]).
Proof.
  eapply (forced_focus_outlives_blur 8 0 sample_forced_world).
  - vm_compute; reflexivity.
  - reflexivity.
  - reflexivity.
  - simpl; lia.
Defined.

(** ** A call acts on its own matcher only *)

Lemma records_own_refl r w : records_own r w w.
Proof. exists []. split; [by rewrite app_nil_r|constructor]. Qed.

Lemma records_own_trans r w1 w2 w3 :
  records_own r w1 w2 → records_own r w2 w3 → records_own r w1 w3.
Proof.
  intros (t12 & Ht12 & H12) (t23 & Ht23 & H23).
  exists (t12 ++ t23). split; [by rewrite Ht23, Ht12, app_assoc|].
  by apply Forall_app.
Qed.

Lemma records_own_assign r q f : respects anywhere (records_own r) (assign q f).
Proof. intros w _. exists []. simpl. split; [by rewrite app_nil_r|constructor]. Qed.

Lemma records_own_emit r e :
  own_effect r e = true → respects anywhere (records_own r) (emit e).
Proof. intros He w _. exists [e]. split; [done|]. by repeat constructor. Qed.

Lemma records_own_notify r stack_depth q v :
  respects anywhere (records_own r) (childHandledSequence_rec stack_depth q v).
Proof.
  intros w _.
  destruct (childHandledSequence_rec_visits stack_depth q v w) as (l & ->).
  exists (notifications v l). split; [done|].
  apply Forall_fmap, Forall_true. done.
Qed.

Lemma syncCalls_own r this : Forall (λ e, own_effect r e = true) (syncCalls r this).
Proof.
  unfold syncCalls. destruct (__mousetrap__ this); [|constructor].
  constructor; [simpl; by apply bool_decide_eq_true_2|].
  induction (default [] (props_handlers this)) as [|[actionName handler] hs IH];
    simpl; [constructor|].
  apply Forall_app. split; [|exact IH].
  apply Forall_fmap, Forall_true. intros d.
  destruct d as [[|]|]; simpl; by rewrite !bool_decide_eq_true_2.
Qed.

Lemma records_own_sync r :
  respects anywhere (records_own r) (syncHandlersToMousetrap r).
Proof.
  intros w _. destruct (heap w !! r) as [this|] eqn:Hr.
  - rewrite (syncHandlersToMousetrap_calls r w this Hr). simpl.
    exists (syncCalls r this). split; [done|]. apply syncCalls_own.
  - unfold syncHandlersToMousetrap, bind, getScope. rewrite Hr.
    apply records_own_refl.
Qed.

Ltac records_own_step :=
  first
    [ apply records_own_sync
    | apply records_own_assign
    | apply records_own_emit; simpl; rewrite ?bool_decide_eq_true_2 by done;
      reflexivity
    | apply records_own_notify
    | unfold updateMap ].

(** X3. Whatever call an instance receives, the trace only grows, and what
    is added is made of notifications and of effects of that instance alone:
    no call creates, resets or binds the matcher of another instance, binds a
    callback of another instance, or calls another instance's handlers or
    [onFocus]/[onBlur] props. *)
Theorem call_acts_on_own_matcher_only (stack_limit : nat) (r : ScopeRef)
    (c : Call) (w : World) :
  ∃ t, trace (world_of (perform stack_limit r c w)) = trace w ++ t
       ∧ Forall (λ e, own_effect r e = true) t.
Proof.
  pose proof (records_own_refl r) as Hrefl.
  pose proof (records_own_trans r) as Htrans.
  pose proof (anywhere_stable (records_own r)) as Hstable.
  assert (H : respects anywhere (records_own r) (perform stack_limit r c)).
  { destruct c; simpl; try apply records_own_notify; try apply records_own_sync.
    - unfold componentWillMount.
      respects_steps Hrefl Htrans Hstable records_own_step.
    - unfold componentDidMount.
      respects_steps Hrefl Htrans Hstable records_own_step.
    - unfold componentDidUpdate.
      respects_steps Hrefl Htrans Hstable records_own_step.
    - unfold componentWillUnmount.
      respects_steps Hrefl Htrans Hstable records_own_step.
    - respects_steps Hrefl Htrans Hstable records_own_step.
    - respects_steps Hrefl Htrans Hstable records_own_step.
    - unfold onFocus. respects_steps Hrefl Htrans Hstable records_own_step.
    - unfold onBlur. respects_steps Hrefl Htrans Hstable records_own_step.
    - unfold callback. respects_steps Hrefl Htrans Hstable records_own_step. }
  by apply H.
Qed.

(** ** When the notification returns, and what a second one leaves *)

Lemma chain_notifyHeap v l' h r l : chain h r l → chain (notifyHeap v l' h) r l.
Proof. apply chain_ext. intros q. apply notifyHeap_parent. Qed.

Lemma ancestors_notifyHeap v l' h this l :
  ancestors h this l → ancestors (notifyHeap v l' h) this l.
Proof.
  unfold ancestors. destruct (context_hotKeyParent this); [|done].
  apply chain_notifyHeap.
Qed.

Lemma notifyHeap_twice v1 v2 l h :
  notifyHeap v2 l (notifyHeap v1 l h) = notifyHeap v2 l h.
Proof.
  apply map_eq. intros q. destruct (decide (q ∈ l)) as [Hin|Hnotin].
  - rewrite !notifyHeap_lookup_in by done. by destruct (h !! q).
  - by rewrite !notifyHeap_lookup_notin.
Qed.

(** X4. [childHandledSequence] returns exactly when following the parents
    from its receiver reaches a root, through instances that exist, within
    the depth of the stack; on a chain that is cyclic, broken or too long it
    ends in an exception. *)
Theorem childHandledSequence_returns_iff_chain_fits (depth : nat)
    (r : ScopeRef) (v : option HotKey) (w : World) :
  (∃ w', childHandledSequence_rec depth r v w = Returned tt w')
  ↔ ∃ l, chain (heap w) r l ∧ length l ≤ depth.
Proof.
  split.
  - revert r w. induction depth as [|depth IH]; intros r w [w' Hrun].
    { discriminate. }
    simpl in Hrun. unfold bind, getScope in Hrun.
    destruct (heap w !! r) as [this|] eqn:Hr; [|discriminate].
    simpl in Hrun. destruct (context_hotKeyParent this) as [p|] eqn:Hp.
    + simpl in Hrun. destruct (IH p _ (ex_intro _ w' Hrun)) as (l & Hl & Hlen).
      exists (r :: l). split; [|simpl; lia].
      apply (chain_parent _ _ this p); [done|done|].
      eapply chain_ext; [|exact Hl]. intros q. simpl.
      symmetry. by apply alter_parent.
    + exists [r]. split; [by apply (chain_root _ _ this)|simpl; lia].
  - intros (l & Hl & Hlen). eexists.
    by apply (childHandledSequence_rec_chain depth r v w l).
Qed.

(** X5. Of two notifications sent one after the other up the same chain,
    only the second shows in the instances: each of them holds the second
    sequence, exactly as if the first had never been sent. *)
Theorem second_notification_overwrites_first (depth : nat) (r : ScopeRef)
    (v1 v2 : option HotKey) (w : World) (l : list ScopeRef) :
  chain (heap w) r l →
  length l ≤ depth →
  ∃ w2 w12,
    childHandledSequence_rec depth r v2 w = Returned tt w2
    ∧ (childHandledSequence_rec depth r v1 ;; childHandledSequence_rec depth r v2) w
      = Returned tt w12
    ∧ heap w12 = heap w2
    ∧ (∀ q, q ∈ l → __lastChildSequence__ <$> heap w12 !! q = Some v2)
    ∧ ∀ q a, q ∈ l → heap w !! q = Some a →
             heap w12 !! q = Some (set_lastChildSequence v2 a).
Proof.
  intros Hc Hlen. eexists _, _. split; [|split; [|split; [|split]]].
  - by apply (childHandledSequence_rec_chain depth r v2 w l).
  - unfold bind. rewrite (childHandledSequence_rec_chain depth r v1 w l) by done.
    apply (childHandledSequence_rec_chain depth r v2 _ l); [|done].
    simpl. by apply chain_notifyHeap.
  - simpl. apply notifyHeap_twice.
  - intros q Hq. cbn [heap]. rewrite notifyHeap_twice.
    apply notifyHeap_stored; [done|]. by apply (chain_member_lookup _ r l).
  - intros q a Hq Hqa. simpl. rewrite notifyHeap_twice.
    by rewrite notifyHeap_lookup_in, Hqa.
Qed.

(** In the sample tree, the child is told of "esc" and then of [null]. *)
Lemma second_notification_overwrites_first_witness :
  ∃ w2 w12,
    childHandledSequence_rec 8 1 None sample_world = Returned tt w2
    ∧ (childHandledSequence_rec 8 1 (Some (HKString "esc")) ;;
       childHandledSequence_rec 8 1 None) sample_world = Returned tt w12
    ∧ heap w12 = heap w2
    ∧ (∀ q, q ∈ [1; 0] → __lastChildSequence__ <$> heap w12 !! q = Some None)
    ∧ ∀ q a, q ∈ [1; 0] → heap sample_world !! q = Some a →
             heap w12 !! q = Some (set_lastChildSequence None a).
Proof.
  apply (second_notification_overwrites_first 8 1 (Some (HKString "esc")) None
           sample_world [1; 0]).
  - apply (chain_parent _ _ sample_child 0); [vm_compute; reflexivity|reflexivity|].
    apply (chain_root _ _ sample_root); vm_compute; reflexivity.
  - simpl; lia.
Defined.

(** ** What the gate lets through *)

Lemma strictEq_true_iff sequence last :
  strictEq sequence last = true ↔ ∃ s, sequence = Some s ∧ last = Some (HKString s).
Proof.
  split.
  - destruct sequence as [s|], last as [[s'|sq ac]|]; simpl; try discriminate.
    intros H. apply bool_decide_eq_true in H. subst. by exists s'.
  - intros (s & -> & ->). simpl. by apply bool_decide_eq_true_2.
Qed.

(** X6. The callback leaves the world as it found it in two cases only: the
    instance does not count as focused, or the matcher passed a string and
    the instance has stored that very string. A sequence left undefined, and
    a stored [{sequence, action}] pair, never suppress anything. *)
Theorem callback_suppresses_iff (stack_limit : nat) (cb : Callback)
    (event : option KeyboardEvent) (sequence : option string)
    (w : World) (this : HotKeys) (l : list ScopeRef) :
  heap w !! cb_this cb = Some this →
  ancestors (heap w) this l →
  length l ≤ stack_limit →
  callback stack_limit cb event sequence w = Returned tt w
  ↔ (isFocused this = false
     ∨ ∃ s, sequence = Some s ∧ __lastChildSequence__ this = Some (HKString s)).
Proof.
  intros Hr Ha Hlen. rewrite <- strictEq_true_iff.
  destruct (isFocused this && negb (strictEq sequence (__lastChildSequence__ this)))
    eqn:Hgate.
  - rewrite (callback_fires _ _ _ _ _ this l) by done.
    apply andb_true_iff in Hgate as [Hf Hn]. apply negb_true_iff in Hn. split.
    + intros Heq. exfalso. injection Heq as Heq.
      apply (f_equal (λ w, length (trace w))) in Heq. simpl in Heq.
      rewrite !length_app in Heq. simpl in Heq. lia.
    + intros [Hf'|Heq]; congruence.
  - rewrite (callback_suppressed _ _ _ _ _ this) by done. split; [|done].
    intros _. apply andb_false_iff in Hgate as [Hf|Hn]; [by left|right].
    by apply negb_false_iff in Hn.
Qed.

(** The child of the sample tree has stored "esc" and is focused. *)
Lemma callback_suppresses_iff_witness :
  callback 8 (mkCallback 1 12) (Some 7) (Some "esc"%string) sample_world
    = Returned tt sample_world
  ↔ (isFocused sample_child = false
     ∨ ∃ s, Some "esc"%string = Some s
            ∧ __lastChildSequence__ sample_child = Some (HKString s)).
Proof.
  apply (callback_suppresses_iff 8 (mkCallback 1 12) (Some 7) (Some "esc"%string)
           sample_world sample_child [0]).
  - vm_compute; reflexivity.
  - apply (chain_root _ _ sample_root); vm_compute; reflexivity.
  - simpl; lia.
Defined.

(** X7. The nearest scope wins. Once the callback of an instance has let a
    sequence through, the callback of each of its ancestors, called with the
    same sequence for whichever of its handlers, leaves the world as it is:
    no ancestor handles what a descendant has just handled. *)
Theorem handled_sequence_is_suppressed_in_ancestors (stack_limit : nat)
    (cb : Callback) (event : option KeyboardEvent) (s : string)
    (w : World) (this : HotKeys) (l : list ScopeRef) :
  heap w !! cb_this cb = Some this →
  ancestors (heap w) this l →
  length l ≤ stack_limit →
  isFocused this = true →
  strictEq (Some s) (__lastChildSequence__ this) = false →
  ∃ w', callback stack_limit cb event (Some s) w = Returned tt w'
        ∧ ∀ q handler event',
            q ∈ l →
            callback stack_limit (mkCallback q handler) event' (Some s) w'
              = Returned tt w'.
Proof.
  intros Hr Ha Hlen Hfocus Hneq. eexists. split.
  - apply (callback_fires _ _ _ _ _ this l); try done. by rewrite Hfocus, Hneq.
  - intros q handler event' Hq.
    destruct (ancestors_member_lookup _ _ _ _ Ha Hq) as [a Hqa].
    apply (callback_suppressed _ _ _ _ _
             (set_lastChildSequence (handledArg (Some s)) a)).
    + simpl. by rewrite notifyHeap_lookup_in, Hqa.
    + simpl. rewrite bool_decide_eq_true_2 by done. apply andb_false_r.
Qed.

(** The leaf of the forced sample handles "ctrl+s"; its parent, though
    forced into focus and bound to the same sequence, stays quiet. *)
Lemma handled_sequence_is_suppressed_in_ancestors_witness :
  ∃ w', callback 8 (mkCallback 1 31) (Some 7) (Some "ctrl+s"%string)
          sample_forced_world = Returned tt w'
        ∧ ∀ q handler event',
            q ∈ [0] →
            callback 8 (mkCallback q handler) event' (Some "ctrl+s"%string) w'
              = Returned tt w'.
Proof.
  eapply (handled_sequence_is_suppressed_in_ancestors 8 (mkCallback 1 31) (Some 7)
            "ctrl+s" sample_forced_world).
  - vm_compute; reflexivity.
  - eapply chain_root; vm_compute; reflexivity.
  - simpl; lia.
  - reflexivity.
  - reflexivity.
Defined.

(** X8. Letting a sequence through changes nothing in the instance itself,
    so the same sequence passes its gate again: two keypresses of one
    combination in the nearest scope call its handler twice, each call
    preceded by the notifications to the ancestors. *)
Theorem repeated_sequence_is_handled_again (stack_limit : nat) (cb : Callback)
    (event event' : option KeyboardEvent) (sequence : option string)
    (w : World) (this : HotKeys) (l : list ScopeRef) :
  heap w !! cb_this cb = Some this →
  ancestors (heap w) this l →
  length l ≤ stack_limit →
  isFocused this = true →
  strictEq sequence (__lastChildSequence__ this) = false →
  ∃ w', (callback stack_limit cb event sequence ;;
         callback stack_limit cb event' sequence) w = Returned tt w'
        ∧ heap w' !! cb_this cb = Some this
        ∧ trace w' = trace w
                       ++ notifications (handledArg sequence) l
                       ++ [HandlerCalled cb event sequence]
                       ++ notifications (handledArg sequence) l
                       ++ [HandlerCalled cb event' sequence].
Proof.
  intros Hr Ha Hlen Hfocus Hneq.
  pose proof (ancestors_not_self _ _ _ _ Hr Ha) as Hself.
  assert (Hgate : isFocused this
                  && negb (strictEq sequence (__lastChildSequence__ this)) = true)
    by (by rewrite Hfocus, Hneq).
  eexists. split; [|split].
  - unfold bind. rewrite (callback_fires _ _ _ _ _ this l) by done.
    apply (callback_fires _ _ _ _ _ this l); simpl; try done.
    + by rewrite notifyHeap_lookup_notin.
    + by apply ancestors_notifyHeap.
  - simpl. rewrite notifyHeap_twice. by rewrite notifyHeap_lookup_notin.
  - simpl. by rewrite <- !app_assoc.
Qed.

(** The child of the sample tree handles "ctrl+s" twice in a row. *)
Lemma repeated_sequence_is_handled_again_witness :
  ∃ w', (callback 8 (mkCallback 1 11) (Some 7) (Some "ctrl+s"%string) ;;
         callback 8 (mkCallback 1 11) (Some 8) (Some "ctrl+s"%string)) sample_world
        = Returned tt w'
        ∧ heap w' !! 1 = Some sample_child
        ∧ trace w' = trace sample_world
                       ++ notifications (handledArg (Some "ctrl+s"%string)) [0]
                       ++ [HandlerCalled (mkCallback 1 11) (Some 7)
                             (Some "ctrl+s"%string)]
                       ++ notifications (handledArg (Some "ctrl+s"%string)) [0]
                       ++ [HandlerCalled (mkCallback 1 11) (Some 8)
                             (Some "ctrl+s"%string)].
Proof.
  apply (repeated_sequence_is_handled_again 8 (mkCallback 1 11) (Some 7) (Some 8)
           (Some "ctrl+s"%string) sample_world sample_child [0]).
  - vm_compute; reflexivity.
  - apply (chain_root _ _ sample_root); vm_compute; reflexivity.
  - simpl; lia.
  - reflexivity.
  - reflexivity.
Defined.

Lemma ancestors_of_member h p l q a :
  chain h p l → q ∈ l → h !! q = Some a →
  ∃ lq, ancestors h a lq ∧ length lq ≤ length l.
Proof.
  intros Hc Hq Hqa.
  destruct (chain_from_member _ _ _ _ Hc Hq) as (l' & Hl' & Hlen).
  inversion Hl' as [r' this' Hr' Hp'|r' this' p' l'' Hr' Hp' Hl'']; subst;
    rewrite Hqa in Hr'; injection Hr' as <-.
  - exists []. unfold ancestors. rewrite Hp'. split; [done|simpl; lia].
  - exists l''. unfold ancestors. rewrite Hp'. split; [done|].
    simpl in Hlen. lia.
Qed.

(** X9. Blur and unmount lift the suppression. After an instance has
    handled a sequence and then lost focus, or was unmounted, a focused
    ancestor called with the same sequence calls its handler again. *)
Theorem blur_or_unmount_lifts_suppression (stack_limit : nat) (r : ScopeRef)
    (handler : FunctionId) (event : option KeyboardEvent) (s : string)
    (w : World) (this : HotKeys) (l : list ScopeRef) (leave : Call)
    (q : ScopeRef) (a : HotKeys) (handler' : FunctionId)
    (event' : option KeyboardEvent) :
  heap w !! r = Some this →
  ancestors (heap w) this l →
  length l ≤ stack_limit →
  isFocused this = true →
  strictEq (Some s) (__lastChildSequence__ this) = false →
  leave = OnBlur ∨ leave = ComponentWillUnmount →
  q ∈ l →
  heap w !! q = Some a →
  isFocused a = true →
  ∃ w' t,
    callback stack_limit (mkCallback q handler') event' (Some s)
      (after stack_limit [(r, MatcherCallback handler event (Some s)); (r, leave)] w)
    = Returned tt w'
    ∧ trace w' =
        trace (after stack_limit
                 [(r, MatcherCallback handler event (Some s)); (r, leave)] w)
        ++ t ++ [HandlerCalled (mkCallback q handler') event' (Some s)].
Proof.
  intros Hr Ha Hlen Hfocus Hneq Hleave Hq Hqa Hfocus'.
  pose proof (ancestors_not_self _ _ _ _ Hr Ha) as Hself.
  assert (Hqr : q ≠ r) by (intros ->; done).
  set (history := [(r, MatcherCallback handler event (Some s)); (r, leave)]).
  pose proof (after_same_config stack_limit history w) as Hsame.
  assert (Hq' : heap (after stack_limit history w) !! q
                = Some (set_lastChildSequence None a)).
  { unfold history, after. simpl.
    rewrite (callback_fires _ (mkCallback r handler) _ _ _ this l);
      [|done|done|done|by rewrite Hfocus, Hneq].
    simpl.
    assert (Hr1 : notifyHeap (handledArg (Some s)) l (heap w) !! r = Some this)
      by (by rewrite notifyHeap_lookup_notin).
    assert (Ha1 : ancestors (notifyHeap (handledArg (Some s)) l (heap w)) this l)
      by (by apply ancestors_notifyHeap).
    destruct Hleave as [->| ->]; simpl.
    - rewrite (onBlur_runs _ _ _ this l) by done. simpl.
      rewrite notifyHeap_lookup_in by done.
      rewrite lookup_insert_ne by done.
      by rewrite notifyHeap_lookup_in, Hqa.
    - rewrite (componentWillUnmount_runs _ _ _ this l) by done. simpl.
      rewrite notifyHeap_lookup_in by done.
      by rewrite notifyHeap_lookup_in, Hqa. }
  assert (∃ lq, ancestors (heap w) a lq ∧ length lq ≤ length l) as (lq & Hlq & Hlenq).
  { unfold ancestors in Ha. destruct (context_hotKeyParent this) as [p|].
    - by apply (ancestors_of_member _ p l q a).
    - subst l. by apply elem_of_nil in Hq. }
  exists (mkWorld
            (notifyHeap (handledArg (Some s)) lq (heap (after stack_limit history w)))
            (trace (after stack_limit history w)
               ++ notifications (handledArg (Some s)) lq
               ++ [HandlerCalled (mkCallback q handler') event' (Some s)])),
         (notifications (handledArg (Some s)) lq).
  split; [|done].
  apply (callback_fires _ _ _ _ _ (set_lastChildSequence None a) lq); simpl.
  - exact Hq'.
  - by apply (ancestors_same_config w _ a).
  - lia.
  - unfold isFocused in *. simpl. by rewrite Hfocus'.
Qed.

(** In the forced sample the leaf handles "ctrl+s" and then loses focus:
    the root, called with "ctrl+s", runs its own handler. *)
Lemma blur_or_unmount_lifts_suppression_witness :
  ∃ w' t,
    callback 8 (mkCallback 0 30) (Some 9) (Some "ctrl+s"%string)
      (after 8 [(1, MatcherCallback 31 (Some 7) (Some "ctrl+s"%string)); (1, OnBlur)]
         sample_forced_world)
    = Returned tt w'
    ∧ trace w' =
        trace (after 8
                 [(1, MatcherCallback 31 (Some 7) (Some "ctrl+s"%string)); (1, OnBlur)]
                 sample_forced_world)
        ++ t ++ [HandlerCalled (mkCallback 0 30) (Some 9) (Some "ctrl+s"%string)].
Proof.
  eapply (blur_or_unmount_lifts_suppression 8 1 31 (Some 7) "ctrl+s"
            sample_forced_world _ [0] OnBlur 0).
  - vm_compute; reflexivity.
  - eapply chain_root; vm_compute; reflexivity.
  - simpl; lia.
  - reflexivity.
  - reflexivity.
  - by left.
  - apply elem_of_cons; by left.
  - vm_compute; reflexivity.
  - reflexivity.
Defined.

(** ** Key maps down the tree *)

(** X10. Merging one hop at a time reaches every ancestor. When an instance
    reads the context its parent exposes with [getContext], and the parent's
    cache is current, an action name resolves in the instance's merged map
    to its own entry, else to the parent's own entry, else to whatever the
    parent had itself inherited. *)
Theorem buildMap_inherits_through_parent (p : ScopeRef)
    (parent this : HotKeys) (actionName : string) :
  context_hotKeyMap this = (getContext p parent).2 →
  __hotKeyMap__ parent = Some (buildMap parent) →
  buildMap this !! actionName =
    match default ∅ (props_keyMap this) !! actionName with
    | Some own => Some own
    | None =>
        match default ∅ (props_keyMap parent) !! actionName with
        | Some parents => Some parents
        | None => default ∅ (context_hotKeyMap parent) !! actionName
        end
    end.
Proof.
  intros Hctx Hcache. rewrite buildMap_lookup, Hctx. simpl. rewrite Hcache. simpl.
  by rewrite buildMap_lookup.
Qed.

(** The child of the sample tree under its root. *)
Lemma buildMap_inherits_through_parent_witness :
  buildMap sample_child !! "close"%string =
    match default ∅ (props_keyMap sample_child) !! "close"%string with
    | Some own => Some own
    | None =>
        match default ∅ (props_keyMap sample_root) !! "close"%string with
        | Some parents => Some parents
        | None => default ∅ (context_hotKeyMap sample_root) !! "close"%string
        end
    end.
Proof.
  apply (buildMap_inherits_through_parent 0 sample_root sample_child).
  - reflexivity.
  - vm_compute; reflexivity.
Defined.

(** X11. An own entry hides the inherited one from the resolver altogether:
    an action name with an entry in the instance's own key map resolves, in
    the merged map, as in the own map alone (so an own empty-string entry
    yields the action name even if the ancestor bound real sequences); an
    action name without one resolves as in the inherited map. *)
Theorem resolution_in_merged_map (this : HotKeys) (actionName : string) :
  sequencesFromKeyMap (Some (buildMap this)) actionName =
    match default ∅ (props_keyMap this) !! actionName with
    | Some _ => sequencesFromKeyMap (Some (default ∅ (props_keyMap this))) actionName
    | None => sequencesFromKeyMap (Some (default ∅ (context_hotKeyMap this))) actionName
    end.
Proof.
  unfold sequencesFromKeyMap, getProperty. rewrite buildMap_lookup.
  by destruct (default ∅ (props_keyMap this) !! actionName) as [own|] eqn:E;
    rewrite ?E.
Qed.

(** X12. The resolver returns no sequence at all in two cases only: the key
    map is [null], or the entry of the action name is an empty list. In every
    other case a handler gets at least one binding. *)
Theorem sequencesFromKeyMap_empty_iff (hotKeyMap : option HotKeyMap)
    (hotKeyName : string) :
  sequencesFromKeyMap hotKeyMap hotKeyName = []
  ↔ (hotKeyMap = None
     ∨ ∃ m, hotKeyMap = Some m ∧ m !! hotKeyName = Some (Many [])).
Proof.
  split.
  - intros H. destruct hotKeyMap as [m|]; [|by left]. right. exists m.
    split; [done|]. unfold sequencesFromKeyMap, getProperty in H.
    destruct (m !! hotKeyName) as [[[s|sq ac]|ks]|]; simpl in H.
    + destruct (negb (negb (bool_decide (s = EmptyString)))); discriminate.
    + discriminate.
    + by destruct ks.
    + destruct (inherited hotKeyName); discriminate.
  - intros [->|(m & -> & Hm)]; [done|].
    unfold sequencesFromKeyMap, getProperty. by rewrite Hm.
Qed.

(** X13. [componentWillMount] always leaves the cache holding the fresh
    merged map, never [null]; from a [null] cache [updateMap] reports a
    change even when there is nothing to merge, the merged map being empty. *)
Theorem componentWillMount_fills_cache (r : ScopeRef) (w : World) (this : HotKeys) :
  heap w !! r = Some this →
  componentWillMount r w =
    Returned tt
      (mkWorld (<[r := set_hotKeyMap (Some (buildMap this)) this]> (heap w))
               (trace w))
  ∧ (__hotKeyMap__ this = None →
     ∃ w', updateMap r w = Returned true w'
           ∧ getMap <$> heap w' !! r = Some (Some (buildMap this))).
Proof.
  intros Hr. split.
  - unfold componentWillMount, bind.
    by destruct (updateMap_result r w this Hr) as (b & -> & _).
  - intros Hnull. eexists. split.
    + apply (updateMap_changed r w this Hr). by rewrite Hnull.
    + simpl. by rewrite lookup_insert_eq.
Qed.

(** A lone instance without key map, context or cache. *)
Lemma componentWillMount_fills_cache_witness :
  componentWillMount 0 (mkWorld {[ 0 := sample_both ]} []) =
    Returned tt
      (mkWorld (<[0 := set_hotKeyMap (Some (buildMap sample_both)) sample_both]>
                  {[ 0 := sample_both ]})
               [])
  ∧ (__hotKeyMap__ sample_both = None →
     ∃ w', updateMap 0 (mkWorld {[ 0 := sample_both ]} []) = Returned true w'
           ∧ getMap <$> heap w' !! 0 = Some (Some (buildMap sample_both))).
Proof.
  pose proof (componentWillMount_fills_cache 0
                (mkWorld {[ 0 := sample_both ]} []) sample_both) as H.
  cbn [heap trace] in H. apply H. vm_compute; reflexivity.
Defined.

(** ** Mounting, unmounting and updating before the mount *)

(** X14. Mounting binds every handler to each value its action name
    resolves to in the merged map, with the focus-gate callback of that
    handler. A handler whose name has no entry is bound to the name itself,
    as a literal sequence without action, unless the name is that of a
    member of [Object.prototype]: then [bind] is called with an undefined
    sequence. *)
Theorem mount_binds_every_handler (stack_limit : nat) (r : ScopeRef)
    (w : World) (this : HotKeys) (l : list ScopeRef)
    (actionName : string) (handler : FunctionId) :
  heap w !! r = Some this →
  ancestors (heap w) this l →
  length l ≤ stack_limit →
  (actionName, handler) ∈ default [] (props_handlers this) →
  ∃ w', componentDidMount stack_limit r w = Returned tt w'
        ∧ (∀ d, d ∈ sequencesFromKeyMap (Some (buildMap this)) actionName →
                bindCall r handler d ∈ trace w')
        ∧ (buildMap this !! actionName = None →
           inherited actionName = false →
           MousetrapBind r (Some actionName) (mkCallback r handler) None ∈ trace w')
        ∧ (buildMap this !! actionName = None →
           inherited actionName = true →
           MousetrapBind r None (mkCallback r handler) None ∈ trace w').
Proof.
  intros Hr Ha Hlen Hin.
  assert (Hall : ∀ d, d ∈ sequencesFromKeyMap (Some (buildMap this)) actionName →
                      bindCall r handler d
                      ∈ flat_map (λ '(actionName, handler),
                                    map (bindCall r handler)
                                        (sequencesFromKeyMap (Some (buildMap this))
                                           actionName))
                                 (default [] (props_handlers this))).
  { intros d Hd. apply list_elem_of_In, in_flat_map.
    exists (actionName, handler). split; [by apply list_elem_of_In|].
    apply in_map. by apply list_elem_of_In. }
  eexists. split; [by apply (componentDidMount_runs _ _ _ this l)|].
  cbn [trace]. split; [|split].
  - intros d Hd. rewrite !elem_of_app. do 3 right.
    apply elem_of_cons. right. by apply Hall.
  - intros Hnone Hown. rewrite !elem_of_app. do 3 right.
    apply elem_of_cons. right.
    apply (Hall (Key (HKString actionName))).
    unfold sequencesFromKeyMap. rewrite (getProperty_undefined _ _ Hnone Hown).
    apply elem_of_cons. by left.
  - intros Hnone Hproto. rewrite !elem_of_app. do 3 right.
    apply elem_of_cons. right.
    apply (Hall (PrototypeMember actionName)).
    unfold sequencesFromKeyMap. rewrite (getProperty_inherited _ _ Hnone Hproto).
    apply elem_of_cons. by left.
Qed.

(** The root of the forced sample has a handler named after a combination
    that no key map declares; a lone instance has one named "toString". *)
Lemma mount_binds_every_handler_witness :
  (∃ w', componentDidMount 8 0 sample_forced_world = Returned tt w'
         ∧ MousetrapBind 0 (Some "ctrl+s"%string) (mkCallback 0 30) None ∈ trace w')
  ∧ (∃ w', componentDidMount 8 0
             (mkWorld {[ 0 := mkHotKeys None None None
                                (Some [("toString"%string, 50)]) None
                                None None None None
                                false None None None ]} [])
           = Returned tt w'
           ∧ MousetrapBind 0 None (mkCallback 0 50) None ∈ trace w').
Proof.
  split.
  - destruct (mount_binds_every_handler 8 0 sample_forced_world
                (mkHotKeys None None None (Some [("ctrl+s"%string, 30)]) (Some true)
                   None None None None false (Some ∅) (Some (OwnNode 0)) None)
                [] "ctrl+s" 30) as (w' & Hrun & _ & Hliteral & _).
    + vm_compute; reflexivity.
    + reflexivity.
    + simpl; lia.
    + apply elem_of_cons; by left.
    + exists w'. split; [exact Hrun|].
      apply Hliteral; vm_compute; reflexivity.
  - pose proof (mount_binds_every_handler 8 0
                (mkWorld {[ 0 := mkHotKeys None None None
                                   (Some [("toString"%string, 50)]) None
                                   None None None None
                                   false None None None ]} [])
                (mkHotKeys None None None (Some [("toString"%string, 50)]) None
                   None None None None false None None None)
                [] "toString" 50) as H.
    cbn [heap trace] in H.
    destruct H as (w' & Hrun & _ & _ & Hproto).
    + vm_compute; reflexivity.
    + reflexivity.
    + simpl; lia.
    + apply elem_of_cons; by left.
    + exists w'. split; [exact Hrun|].
      apply Hproto; vm_compute; reflexivity.
Defined.

Lemma bindCalls_are_binds r (hotKeyMap : option HotKeyMap) (handlers : Handlers) :
  Forall (λ e, ∃ sequence cb action, e = MousetrapBind r sequence cb action)
    (flat_map (λ '(actionName, handler),
                 map (bindCall r handler)
                     (sequencesFromKeyMap hotKeyMap actionName))
              handlers).
Proof.
  induction handlers as [|[n h] hs IH]; cbn [flat_map]; [constructor|].
  apply Forall_app. split; [|exact IH].
  apply Forall_fmap, Forall_true. intros d.
  destruct d as [[|]|]; cbn [bindCall]; eauto.
Qed.

Lemma ancestors_insert h r this this' a l :
  h !! r = Some this →
  context_hotKeyParent this' = context_hotKeyParent this →
  ancestors h a l → ancestors (<[r := this']> h) a l.
Proof.
  intros Hr Hp. rewrite <- (alter_Some_insert _ _ (λ _, this') this Hr).
  unfold ancestors. destruct (context_hotKeyParent a); [|done].
  apply chain_ext. intros q. destruct (decide (r = q)) as [->|Hne].
  - rewrite lookup_alter_eq, Hr. simpl. by rewrite Hp.
  - by rewrite lookup_alter_ne.
Qed.

(** X15. Unmounting right after mounting: the matcher calls end with a
    reset, after every bind of the mount, and the ancestors are notified of
    [null] before each of the two resets; the instance keeps the reference
    to its matcher. *)
Theorem mount_then_unmount_ends_in_reset (stack_limit : nat) (r : ScopeRef)
    (w : World) (this : HotKeys) (l : list ScopeRef) :
  heap w !! r = Some this →
  ancestors (heap w) this l →
  length l ≤ stack_limit →
  ∃ w' binds,
    (componentDidMount stack_limit r ;; componentWillUnmount stack_limit r) w
    = Returned tt w'
    ∧ trace w' = trace w ++ [MousetrapNew r (bindTarget r this)]
                   ++ notifications None l ++ [MousetrapReset r] ++ binds
                   ++ notifications None l ++ [MousetrapReset r]
    ∧ Forall (λ e, ∃ sequence cb action, e = MousetrapBind r sequence cb action)
        binds
    ∧ __mousetrap__ <$> heap w' !! r = Some (Some (bindTarget r this)).
Proof.
  intros Hr Ha Hlen.
  pose proof (ancestors_not_self _ _ _ _ Hr Ha) as Hself.
  set (this' := set_hotKeyMap (Some (buildMap this))
                  (set_mousetrap (Some (bindTarget r this)) this)).
  set (binds := flat_map (λ '(actionName, handler),
                            map (bindCall r handler)
                                (sequencesFromKeyMap (Some (buildMap this)) actionName))
                         (default [] (props_handlers this))).
  assert (Hr' : notifyHeap None l (<[r := this']> (heap w)) !! r = Some this').
  { rewrite notifyHeap_lookup_notin by done. apply lookup_insert_eq. }
  assert (Hmount : componentDidMount stack_limit r w =
            Returned tt
              (mkWorld (notifyHeap None l (<[r := this']> (heap w)))
                 (trace w ++ [MousetrapNew r (bindTarget r this)]
                    ++ notifications None l ++ MousetrapReset r :: binds)))
    by (by apply (componentDidMount_runs _ _ _ this l)).
  assert (Hunmount : componentWillUnmount stack_limit r
            (mkWorld (notifyHeap None l (<[r := this']> (heap w)))
               (trace w ++ [MousetrapNew r (bindTarget r this)]
                  ++ notifications None l ++ MousetrapReset r :: binds)) =
            Returned tt
              (mkWorld
                 (notifyHeap None l (notifyHeap None l (<[r := this']> (heap w))))
                 ((trace w ++ [MousetrapNew r (bindTarget r this)]
                     ++ notifications None l ++ MousetrapReset r :: binds)
                    ++ notifications None l ++ [MousetrapReset r]))).
  { rewrite (componentWillUnmount_runs _ _ _ this' l); cbn [heap].
    - reflexivity.
    - exact Hr'.
    - apply ancestors_notifyHeap. by apply (ancestors_insert _ _ this).
    - exact Hlen. }
  eexists _, binds. split; [|split; [|split]].
  - unfold bind. rewrite Hmount. exact Hunmount.
  - cbn [trace]. rewrite <- !app_assoc. reflexivity.
  - apply bindCalls_are_binds.
  - cbn [heap]. rewrite notifyHeap_twice, Hr'. reflexivity.
Qed.

(** The child of the sample tree is mounted and unmounted at once. *)
Lemma mount_then_unmount_ends_in_reset_witness :
  ∃ w' binds,
    (componentDidMount 8 1 ;; componentWillUnmount 8 1) sample_world
    = Returned tt w'
    ∧ trace w' = trace sample_world ++ [MousetrapNew 1 (bindTarget 1 sample_child)]
                   ++ notifications None [0] ++ [MousetrapReset 1] ++ binds
                   ++ notifications None [0] ++ [MousetrapReset 1]
    ∧ Forall (λ e, ∃ sequence cb action, e = MousetrapBind 1 sequence cb action)
        binds
    ∧ __mousetrap__ <$> heap w' !! 1 = Some (Some (bindTarget 1 sample_child)).
Proof.
  apply (mount_then_unmount_ends_in_reset 8 1 sample_world sample_child [0]).
  - vm_compute; reflexivity.
  - apply (chain_root _ _ sample_root); vm_compute; reflexivity.
  - simpl; lia.
Defined.

(** X16. An instance that has no matcher yet still takes part in the
    protocol: a forced or triggered [updateHotKeys] refreshes its cache and
    notifies its ancestors of [null], but records no matcher call. *)
Theorem update_before_mount_binds_nothing (stack_limit : nat) (r : ScopeRef)
    (force : bool) (prev : option Handlers) (w : World) (this : HotKeys)
    (l : list ScopeRef) :
  heap w !! r = Some this →
  ancestors (heap w) this l →
  length l ≤ stack_limit →
  __mousetrap__ this = None →
  force || hasChanged (Some (buildMap this)) (__hotKeyMap__ this)
    || hasChanged (default [] (props_handlers this))
         (default (default [] (props_handlers this)) prev) = true →
  ∃ w', updateHotKeys stack_limit r force prev w = Returned tt w'
        ∧ trace w' = trace w ++ notifications None l
        ∧ heap w' !! r = Some (set_hotKeyMap (Some (buildMap this)) this).
Proof.
  intros Hr Ha Hlen Hnone Htrigger.
  pose proof (ancestors_not_self _ _ _ _ Hr Ha) as Hself.
  eexists. split; [by apply (updateHotKeys_rebinds _ _ _ _ _ this l)|].
  cbn [heap trace]. split.
  - unfold syncCalls. simpl. rewrite Hnone. by rewrite app_nil_r.
  - rewrite notifyHeap_lookup_notin by done. apply lookup_insert_eq.
Qed.

(** A child of the sample root that was constructed but not mounted. *)
Lemma update_before_mount_binds_nothing_witness :
  ∃ w', updateHotKeys 8 3 true None
          (mkWorld (<[3 := mkHotKeys (Some 0) (Some sample_map) None
                             (Some [("save"%string, 40)]) None None None None None
                             false None None None]> (heap sample_world)) [])
        = Returned tt w'
        ∧ trace w' = [] ++ notifications None [0]
        ∧ heap w' !! 3 =
            Some (set_hotKeyMap
                    (Some (buildMap (mkHotKeys (Some 0) (Some sample_map) None
                                       (Some [("save"%string, 40)]) None None None
                                       None None false None None None)))
                    (mkHotKeys (Some 0) (Some sample_map) None
                       (Some [("save"%string, 40)]) None None None None None
                       false None None None)).
Proof.
  pose proof (update_before_mount_binds_nothing 8 3 true None
    (mkWorld (<[3 := mkHotKeys (Some 0) (Some sample_map) None
                      (Some [("save"%string, 40)]) None None None None None
                      false None None None]> (heap sample_world)) [])
    (mkHotKeys (Some 0) (Some sample_map) None
       (Some [("save"%string, 40)]) None None None None None
       false None None None) [0]) as H.
  cbn [heap trace] in H. apply H.
  - vm_compute; reflexivity.
  - apply (chain_root _ _ sample_root); vm_compute; reflexivity.
  - simpl; lia.
  - reflexivity.
  - reflexivity.
Defined.

(** ** What reaches the host element *)

(** X17. The host element rendered for a [HotKeys] instance is of the type
    given as [component], a [div] by default. It never receives [keyMap],
    [handlers], [focused], [attach], [attachRef], [component] or [children]
    as props; its [onFocus] and [onBlur] are the instance's own methods,
    whatever the application passed; its [tabIndex] is [-1] unless the
    application passed one; every other prop arrives unchanged; and its
    children are the application's, inside a provider of the instance and
    its cached merged map. *)
Theorem host_element_props (r : ScopeRef) (this : HotKeys) (this_props : Props)
    (k : string) :
  k ∉ ["keyMap"; "handlers"; "focused"; "attach"; "attachRef"; "component";
       "children"; "onFocus"; "onBlur"; "tabIndex"]%string →
  let host := hostElement r this this_props in
  el_type host = default (VString "div") (this_props !! "component"%string)
  ∧ el_children host
    = Some (VProvider (Some r) (__hotKeyMap__ this) (this_props !! "children"%string))
  ∧ Forall (λ removed, el_props host !! removed = None)
      ["keyMap"; "handlers"; "focused"; "attach"; "attachRef"; "component";
       "children"]%string
  ∧ el_props host !! "onFocus"%string = Some (VBoundMethod r "onFocus")
  ∧ el_props host !! "onBlur"%string = Some (VBoundMethod r "onBlur")
  ∧ el_props host !! "tabIndex"%string
    = Some (default (VNumber (-1)) (this_props !! "tabIndex"%string))
  ∧ el_props host !! k = this_props !! k.
Proof.
  intros Hk host. subst host.
  unfold hostElement, FocusTrap.render, FocusTrap.defaultProps, render, propsOf,
    getContext. simpl.
  repeat split.
  - rewrite lookup_union. rewrite lookup_insert_ne by done.
    rewrite !lookup_insert_ne by done. rewrite !lookup_delete_ne by done.
    rewrite lookup_singleton_eq.
    by destruct (this_props !! "component"%string).
  - rewrite lookup_union. rewrite lookup_insert_eq. reflexivity.
  - repeat constructor;
      rewrite lookup_union, lookup_singleton_ne by done;
      repeat first
        [ rewrite lookup_delete_eq
        | rewrite lookup_delete_ne by done
        | rewrite lookup_union
        | rewrite lookup_insert_ne by done
        | rewrite lookup_singleton_ne by done ];
      reflexivity.
  - rewrite lookup_union, lookup_singleton_ne by done.
    rewrite !lookup_delete_ne by done.
    rewrite lookup_union, lookup_singleton_ne by done.
    rewrite lookup_insert_ne by done. rewrite lookup_insert_ne by done.
    by rewrite lookup_insert_eq.
  - rewrite lookup_union, lookup_singleton_ne by done.
    rewrite !lookup_delete_ne by done.
    rewrite lookup_union, lookup_singleton_ne by done.
    rewrite lookup_insert_ne by done. by rewrite lookup_insert_eq.
  - rewrite lookup_union, lookup_singleton_eq.
    rewrite !lookup_delete_ne by done.
    rewrite lookup_union, lookup_singleton_ne by done.
    rewrite !lookup_insert_ne by done. rewrite !lookup_delete_ne by done.
    by destruct (this_props !! "tabIndex"%string).
  - repeat (apply not_elem_of_cons in Hk as [? Hk]).
    rewrite lookup_union, lookup_singleton_ne by done.
    rewrite !lookup_delete_ne by done.
    rewrite lookup_union, lookup_singleton_ne by done.
    rewrite !lookup_insert_ne by done. rewrite !lookup_delete_ne by done.
    by destruct (this_props !! k).
Qed.

(** An application passes a class name, its own [onFocus], a tab index and
    a key map. *)
Lemma host_element_props_witness :
  let this_props : Props :=
    {[ "className"%string := VString "editor";
       "onFocus"%string := VOpaque 1;
       "tabIndex"%string := VNumber 0;
       "keyMap"%string := VOpaque 2 ]} in
  let host := hostElement 1 sample_child this_props in
  el_type host = default (VString "div") (this_props !! "component"%string)
  ∧ el_children host
    = Some (VProvider (Some 1) (__hotKeyMap__ sample_child)
              (this_props !! "children"%string))
  ∧ Forall (λ removed, el_props host !! removed = None)
      ["keyMap"; "handlers"; "focused"; "attach"; "attachRef"; "component";
       "children"]%string
  ∧ el_props host !! "onFocus"%string = Some (VBoundMethod 1 "onFocus")
  ∧ el_props host !! "onBlur"%string = Some (VBoundMethod 1 "onBlur")
  ∧ el_props host !! "tabIndex"%string
    = Some (default (VNumber (-1)) (this_props !! "tabIndex"%string))
  ∧ el_props host !! "className"%string = this_props !! "className"%string.
Proof.
  intros this_props.
  apply (host_element_props 1 sample_child this_props "className").
  intros Hin. repeat (apply elem_of_cons in Hin as [Heq|Hin]; [discriminate|]).
  by apply elem_of_nil in Hin.
Defined.

(** ** Handlers taken away, focus given and taken *)

Lemma hasChanged_handlers_nil (hs : Handlers) :
  hs ≠ [] → hasChanged ([] : Handlers) hs = true.
Proof.
  intros Hne. unfold hasChanged, isEqual, isEqual_handlers.
  rewrite bool_decide_eq_false_2; [done|].
  destruct hs as [|[k f] hs]; [done|]. simpl. intros Heq.
  apply (f_equal (λ m, m !! k)) in Heq.
  by rewrite lookup_empty, lookup_insert_eq in Heq.
Qed.

(** X18. When an update takes every handler away (the [handlers] prop is
    gone, or empty, and the previous props had some), a mounted instance
    notifies its ancestors of [null] and resets its matcher without binding
    anything: nothing stays bound. *)
Theorem removing_handlers_unbinds_everything (stack_limit : nat) (r : ScopeRef)
    (w : World) (this : HotKeys) (l : list ScopeRef) (previous : Handlers) :
  heap w !! r = Some this →
  ancestors (heap w) this l →
  length l ≤ stack_limit →
  is_Some (__mousetrap__ this) →
  default [] (props_handlers this) = [] →
  previous ≠ [] →
  ∃ w', componentDidUpdate stack_limit r (Some previous) w = Returned tt w'
        ∧ trace w' = trace w ++ notifications None l ++ [MousetrapReset r].
Proof.
  intros Hr Ha Hlen [t Ht] Hnone Hprev. eexists. split.
  - unfold componentDidUpdate.
    apply (updateHotKeys_rebinds _ _ _ _ _ this l); try done.
    rewrite Hnone. simpl. rewrite hasChanged_handlers_nil by done.
    apply orb_true_r.
  - cbn [trace]. rewrite (syncCalls_mounted r this t) by done.
    by rewrite Hnone.
Qed.

(** A mounted child of the sample root whose handlers have just been taken
    away. *)
Lemma removing_handlers_unbinds_everything_witness :
  ∃ w', componentDidUpdate 8 3 (Some [("save"%string, 40)])
          (mkWorld (<[3 := mkHotKeys (Some 0) (Some sample_map) None None None
                             None None None None
                             true (Some sample_map) (Some (OwnNode 3)) None]>
                      (heap sample_world)) [])
        = Returned tt w'
        ∧ trace w' = [] ++ notifications None [0] ++ [MousetrapReset 3].
Proof.
  pose proof (removing_handlers_unbinds_everything 8 3
    (mkWorld (<[3 := mkHotKeys (Some 0) (Some sample_map) None None None
                      None None None None
                      true (Some sample_map) (Some (OwnNode 3)) None]>
                (heap sample_world)) [])
    (mkHotKeys (Some 0) (Some sample_map) None None None None None None None
       true (Some sample_map) (Some (OwnNode 3)) None)
    [0] [("save"%string, 40)]) as H.
  cbn [heap trace] in H. apply H.
  - vm_compute; reflexivity.
  - apply (chain_root _ _ sample_root); vm_compute; reflexivity.
  - simpl; lia.
  - by eexists.
  - reflexivity.
  - discriminate.
Defined.

Lemma onFocus_runs r w this :
  heap w !! r = Some this →
  onFocus r w =
    Returned tt
      (mkWorld (<[r := set_isFocused true this]> (heap w))
               (trace w ++ match props_onFocus this with
                           | Some f => [OnFocusCalled r f]
                           | None => []
                           end)).
Proof.
  intros Hr. unfold onFocus, bind, getScope. rewrite Hr.
  unfold assign. cbn [heap trace]. rewrite (alter_Some_insert _ _ _ this Hr).
  destruct (props_onFocus this); simpl; [done|].
  unfold ret. by rewrite app_nil_r.
Qed.

(** X19. Without a [focused] prop the gate follows the focus events: after
    [onBlur] the callback of the instance leaves the world as it is, for any
    sequence; after [onFocus], which notifies nobody and changes no other
    instance, the callback lets through every sequence that is not strictly
    equal to the stored one. *)
Theorem gate_follows_focus_events (stack_limit : nat) (r : ScopeRef)
    (w : World) (this : HotKeys) (l : list ScopeRef) (handler : FunctionId)
    (event : option KeyboardEvent) (sequence : option string) :
  heap w !! r = Some this →
  ancestors (heap w) this l →
  length l ≤ stack_limit →
  props_focused this = None →
  (∃ w1, onBlur stack_limit r w = Returned tt w1
         ∧ callback stack_limit (mkCallback r handler) event sequence w1
           = Returned tt w1)
  ∧ (∃ w1, onFocus r w = Returned tt w1
           ∧ (∀ q, q ≠ r → heap w1 !! q = heap w !! q)
           ∧ Forall (λ e, ∀ q v, e ≠ Notified q v) (drop (length (trace w)) (trace w1))
           ∧ (strictEq sequence (__lastChildSequence__ this) = false →
              ∃ w2, callback stack_limit (mkCallback r handler) event sequence w1
                    = Returned tt w2
                    ∧ trace w2 = trace w1 ++ notifications (handledArg sequence) l
                                   ++ [HandlerCalled (mkCallback r handler) event
                                         sequence])).
Proof.
  intros Hr Ha Hlen Hprop.
  pose proof (ancestors_not_self _ _ _ _ Hr Ha) as Hself. split.
  - eexists. split; [by apply (onBlur_runs _ _ _ this l)|].
    apply (callback_suppressed _ _ _ _ _ (set_isFocused false this)); simpl.
    + rewrite notifyHeap_lookup_notin by done. apply lookup_insert_eq.
    + unfold isFocused. simpl. by rewrite Hprop.
  - eexists. split; [by apply onFocus_runs|]. cbn [heap trace].
    split; [|split].
    + intros q Hq. by apply lookup_insert_ne.
    + rewrite drop_app_length.
      destruct (props_onFocus this); repeat constructor; discriminate.
    + intros Hneq. eexists. split.
      * apply (callback_fires _ _ _ _ _ (set_isFocused true this) l);
          cbn [heap trace cb_this].
        -- apply lookup_insert_eq.
        -- by apply (ancestors_insert _ _ this).
        -- done.
        -- unfold isFocused. cbn. by rewrite Hprop, Hneq.
      * reflexivity.
Qed.

(** The child of the sample tree has no [focused] prop. *)
Lemma gate_follows_focus_events_witness :
  (∃ w1, onBlur 8 1 sample_world = Returned tt w1
         ∧ callback 8 (mkCallback 1 11) (Some 7) (Some "ctrl+s"%string) w1
           = Returned tt w1)
  ∧ (∃ w1, onFocus 1 sample_world = Returned tt w1
           ∧ (∀ q, q ≠ 1 → heap w1 !! q = heap sample_world !! q)
           ∧ Forall (λ e, ∀ q v, e ≠ Notified q v)
               (drop (length (trace sample_world)) (trace w1))
           ∧ (strictEq (Some "ctrl+s"%string) (__lastChildSequence__ sample_child)
              = false →
              ∃ w2, callback 8 (mkCallback 1 11) (Some 7) (Some "ctrl+s"%string) w1
                    = Returned tt w2
                    ∧ trace w2 = trace w1
                                   ++ notifications (handledArg (Some "ctrl+s"%string)) [0]
                                   ++ [HandlerCalled (mkCallback 1 11) (Some 7)
                                         (Some "ctrl+s"%string)])).
Proof.
  apply (gate_follows_focus_events 8 1 sample_world sample_child [0] 11 (Some 7)
           (Some "ctrl+s"%string)).
  - vm_compute; reflexivity.
  - apply (chain_root _ _ sample_root); vm_compute; reflexivity.
  - simpl; lia.
  - reflexivity.
Defined.
